(** * xray: the job-distribution machine of [machine.go]

    A shallow embedding of [Statistics], [Machine], [NewMachine],
    [inputConsumer], [outputConsumer], [AddInput], [Start], [UpdateStats] and
    [Wait], and the properties of the run they implement.

    The goroutines of a run (the caller of [Start] and [Wait], the
    [inputConsumer] workers and the single [outputConsumer]) are modelled as
    an interleaving transition system: a scheduler picks which goroutine
    performs its next statement.  The two channels of the machine are
    unbuffered, so a send and its receive are one joint step. *)

From Stdlib Require Import ZArith Floats.SpecFloat.
From stdpp Require Import base numbers list strings.

Local Open Scope Z_scope.

(** ** Machine integers *)

Module Uint64.
Definition modulus : Z := 2 ^ 64.

(** Arithmetic on [uint64] wraps around. *)
Definition wrap (z : Z) : Z := z mod modulus.
Definition add (x y : Z) : Z := wrap (x + y).
Definition sub (x y : Z) : Z := wrap (x - y).
Definition in_range (z : Z) : Prop := 0 <= z < modulus.
End Uint64.

Arguments Uint64.wrap : simpl never.
Arguments Uint64.add : simpl never.
Arguments Uint64.sub : simpl never.

(** ** float64

    IEEE-754 binary64 as specified by the Standard Library: 53 bits of
    precision, infinities at exponent 1024, rounding to nearest even. *)

Module Float64.
Definition t := spec_float.
Definition prec : Z := 53.
Definition emax : Z := 1024.

(** The conversion [float64(n)] of an integer. *)
Definition of_Z (z : Z) : t := binary_normalize prec emax z 0 false.
Definition add : t -> t -> t := SFadd prec emax.
Definition mul : t -> t -> t := SFmul prec emax.
Definition div : t -> t -> t := SFdiv prec emax.

Definition zero : t := S754_zero false.
Definition NaN : t := S754_nan.
Definition pos_inf : t := S754_infinity false.

Definition is_finite (x : t) : bool :=
  match x with
  | S754_zero _ | S754_finite _ _ _ => true
  | S754_infinity _ | S754_nan => false
  end.
End Float64.

(** ** package time

    A [time.Time] is an instant in nanoseconds, a [time.Duration] an [int64]
    count of nanoseconds. *)

Module GoTime.
Definition Time := Z.
Definition Duration := Z.

Definition minDuration : Duration := - 2 ^ 63.
Definition maxDuration : Duration := 2 ^ 63 - 1.
Definition Second : Duration := 1000000000.

(** [t.Sub(u)]: the difference, saturated to the range of a Duration. *)
Definition Sub (t u : Time) : Duration :=
  let d := t - u in
  if d <? minDuration then minDuration
  else if maxDuration <? d then maxDuration
  else d.

(** [d.Seconds()]: [float64(d / Second) + float64(d % Second) / 1e9],
    with Go's truncating division. *)
Definition Seconds (d : Duration) : Float64.t :=
  Float64.add (Float64.of_Z (Z.quot d Second))
              (Float64.div (Float64.of_Z (Z.rem d Second)) (Float64.of_Z Second)).
End GoTime.

(** ** Statistics *)

Record Statistics := mkStatistics {
  Start : GoTime.Time;         (* Time the execution started *)
  Stop : GoTime.Time;          (* Time the execution finished *)
  Total : GoTime.Duration;     (* Total duration of the execution *)
  Inputs : Z;                  (* uint64: number of inputs from the wordlist *)
  Eps : Float64.t;             (* Executions per second *)
  Execs : Z;                   (* uint64: total number of executions *)
  Results : Z;                 (* uint64: executions with positive results *)
  Progress : Float64.t         (* ( execs / inputs ) * 100.0 *)
}.

(** The zero value [Statistics{}]. *)
Definition zeroStatistics : Statistics :=
  {| Start := 0; Stop := 0; Total := 0; Inputs := 0; Eps := Float64.zero;
     Execs := 0; Results := 0; Progress := Float64.zero |}.

Definition set_Start (t : GoTime.Time) (st : Statistics) : Statistics :=
  {| Start := t; Stop := Stop st; Total := Total st; Inputs := Inputs st;
     Eps := Eps st; Execs := Execs st; Results := Results st;
     Progress := Progress st |}.

Definition set_Inputs (n : Z) (st : Statistics) : Statistics :=
  {| Start := Start st; Stop := Stop st; Total := Total st; Inputs := n;
     Eps := Eps st; Execs := Execs st; Results := Results st;
     Progress := Progress st |}.

Definition set_Execs (n : Z) (st : Statistics) : Statistics :=
  {| Start := Start st; Stop := Stop st; Total := Total st; Inputs := Inputs st;
     Eps := Eps st; Execs := n; Results := Results st;
     Progress := Progress st |}.

Definition set_Results (n : Z) (st : Statistics) : Statistics :=
  {| Start := Start st; Stop := Stop st; Total := Total st; Inputs := Inputs st;
     Eps := Eps st; Execs := Execs st; Results := n;
     Progress := Progress st |}.

(** ** Collaborators outside [machine.go] *)

(** The [error] value an I/O failure carries. *)
Inductive Error := IOError (msg : string).

(** Modelled from the spec: the [Session] type is declared outside
    [machine.go]; [NewMachine] reads only its field [Stats], a pointer to a
    [Statistics] snapshot that may be nil.  The field is [SessionStats] here,
    [Stats] being the field of [Machine]. *)
Record Session := mkSession {
  SessionStats : option Statistics
}.

(** Modelled from the spec: [LineReader] is defined outside [machine.go].
    Its contract is "open(path, startOffset) -> lazy sequence of lines, or
    failure(IOError)"; the sequence is finite and is consumed front to back.
    [Start] calls it twice, so the first argument tells the calls apart:
    call 0 is the counting pass and call 1 the submission pass.  The record
    also holds what the run takes from the Go runtime. *)
Record Env := mkEnv {
  (* runtime.NumCPU() *)
  NumCPU : Z;
  LineReader : nat -> string -> Z -> Error + list string;
  (* time.Now() at its two call sites: 0 in Start, 1 in UpdateStats *)
  Now : nat -> GoTime.Time
}.

(** A fault of the Go runtime. *)
Inductive Fault := NilDereference.

Section Machine.

(** [Result] is the type of the non-nil values a [RunHandler] returns
    ([interface{}] in the source, nil being [None]); [World] is whatever the
    [ResultHandler] acts on. *)
Context {Result World : Type}.

(** This is where the main logic goes.  The handler is taken to be a
    terminating function of its line. *)
Definition RunHandler := string -> option Result.

(** This is where positive results are handled. *)
Definition ResultHandler := Result -> World -> World.

(** The main object.  The two channels are unbuffered and hold no data of
    their own; [wait] is the counter of the [sync.WaitGroup]. *)
Record Machine := mkMachine {
  Stats : Statistics;
  consumers : Z;
  filename : string;
  wait : Z;
  run_handler : RunHandler;
  res_handler : ResultHandler
}.

Definition set_Stats (st : Statistics) (m : Machine) : Machine :=
  {| Stats := st; consumers := consumers m; filename := filename m;
     wait := wait m; run_handler := run_handler m;
     res_handler := res_handler m |}.

Definition set_wait (n : Z) (m : Machine) : Machine :=
  {| Stats := Stats m; consumers := consumers m; filename := filename m;
     wait := n; run_handler := run_handler m;
     res_handler := res_handler m |}.

(** Builds a new machine object, if consumers is less or equal than 0, CPU*2
    will be used as default value.  The session pointer is [None] when nil. *)
Definition NewMachine (env : Env) (consumers : Z) (filename : string)
    (session : option Session) (run_handler : RunHandler)
    (res_handler : ResultHandler) : Fault + Machine :=
  let workers :=
    if consumers <=? 0 then Uint64.wrap (NumCPU env * 2)
    else Uint64.wrap consumers in
  match session with
  | None => inl NilDereference
  | Some sess =>
      let stats :=
        match SessionStats sess with
        | Some st => if 0 <? Execs st then st else zeroStatistics
        | None => zeroStatistics
        end in
      inr {| Stats := stats;
             consumers := workers;
             filename := filename;
             wait := 0;
             run_handler := run_handler;
             res_handler := res_handler |}
  end.

(** [UpdateStats], given the instant [time.Now()] returns. *)
Definition UpdateStats (now : GoTime.Time) (m : Machine) : Machine :=
  let st := Stats m in
  let stop := now in
  let total := GoTime.Sub stop (Start st) in
  set_Stats
    {| Start := Start st;
       Stop := stop;
       Total := total;
       Inputs := Inputs st;
       Eps := Float64.div (Float64.of_Z (Execs st)) (GoTime.Seconds total);
       Execs := Execs st;
       Results := Results st;
       Progress :=
         Float64.mul
           (Float64.div (Float64.of_Z (Execs st)) (Float64.of_Z (Inputs st)))
           (Float64.of_Z 100) |} m.

(** ** The goroutines *)

(** A job is a line; [j] is its position in the order of submission. *)

(** Where an [inputConsumer] stands. *)
Inductive Worker :=
| WRecv                                        (* for in := range m.input *)
| WExec (j : nat) (line : string)              (* atomic.AddUint64(&m.Stats.Execs, 1) *)
| WRun (j : nat) (line : string)               (* res := m.run_handler(in); if res != nil *)
| WCount (j : nat) (res : Result)              (* atomic.AddUint64(&m.Stats.Results, 1) *)
| WSend (j : nat) (res : Result)               (* m.output <- res *)
| WDone (j : nat) (res : option Result).       (* m.wait.Done() *)

(** Where the [outputConsumer] stands. *)
Inductive Collector :=
| CRecv                                        (* for res := range m.output *)
| CHandle (j : nat) (res : Result).            (* m.res_handler(res) *)

(** Where the caller stands: inside [Start], then, when [Start] returned
    nil, inside [Wait]. *)
Inductive Main :=
| MSpawn (i : Z)                               (* for i < m.consumers: go m.inputConsumer() *)
| MSpawnOutput                                 (* go m.outputConsumer() *)
| MResetInputs                                 (* m.Stats.Inputs = 0 *)
| MOpenCount                                   (* lines, err := LineReader(m.filename, 0) *)
| MCount (lines : list string)                 (* for range lines: m.Stats.Inputs++ *)
| MOpenRun                                     (* lines, err = LineReader(m.filename, 0) *)
| MCheckResume (lines : list string)           (* if m.Stats.Execs > 0 *)
| MSkip (n : Z) (lines : list string)          (* for range lines: n--; if n == 0 break *)
| MSubmit (lines : list string)                (* for line := range lines: m.wait.Add(1) *)
| MSend (line : string) (lines : list string)  (* m.input <- input *)
| MStartErr (err : Error)                      (* Start returned err *)
| MWait                                        (* Start returned nil; m.wait.Wait() *)
| MUpdateStats                                 (* m.UpdateStats() *)
| MFinished.                                   (* Wait returned *)

(** The state of a run.  [discarded], [submitted], [executed] and [handled]
    record what happened so far: the lines the resume loop dropped, the lines
    handed to a worker over [m.input], the lines [m.run_handler] was called
    on (one entry per call), and the completed calls of [m.res_handler]. *)
Record State := mkState {
  mach : Machine;
  main : Main;
  workers : list Worker;
  collector : option Collector;
  discarded : list string;
  submitted : list string;
  executed : list string;
  handled : list (nat * Result);
  world : World
}.

Definition set_mach (m : Machine) (s : State) : State :=
  {| mach := m; main := main s; workers := workers s;
     collector := collector s; discarded := discarded s;
     submitted := submitted s; executed := executed s;
     handled := handled s; world := world s |}.

Definition set_main (p : Main) (s : State) : State :=
  {| mach := mach s; main := p; workers := workers s;
     collector := collector s; discarded := discarded s;
     submitted := submitted s; executed := executed s;
     handled := handled s; world := world s |}.

Definition set_workers (ws : list Worker) (s : State) : State :=
  {| mach := mach s; main := main s; workers := ws;
     collector := collector s; discarded := discarded s;
     submitted := submitted s; executed := executed s;
     handled := handled s; world := world s |}.

Definition set_collector (c : option Collector) (s : State) : State :=
  {| mach := mach s; main := main s; workers := workers s;
     collector := c; discarded := discarded s;
     submitted := submitted s; executed := executed s;
     handled := handled s; world := world s |}.

Definition set_stats (f : Statistics -> Statistics) (s : State) : State :=
  set_mach (set_Stats (f (Stats (mach s))) (mach s)) s.

Definition set_worker (i : nat) (w : Worker) (s : State) : State :=
  set_workers (<[i:=w]> (workers s)) s.

Definition log_discarded (l : string) (s : State) : State :=
  {| mach := mach s; main := main s; workers := workers s;
     collector := collector s; discarded := discarded s ++ [l];
     submitted := submitted s; executed := executed s;
     handled := handled s; world := world s |}.

Definition log_submitted (l : string) (s : State) : State :=
  {| mach := mach s; main := main s; workers := workers s;
     collector := collector s; discarded := discarded s;
     submitted := submitted s ++ [l]; executed := executed s;
     handled := handled s; world := world s |}.

Definition log_executed (l : string) (s : State) : State :=
  {| mach := mach s; main := main s; workers := workers s;
     collector := collector s; discarded := discarded s;
     submitted := submitted s; executed := executed s ++ [l];
     handled := handled s; world := world s |}.

Definition log_handled (j : nat) (r : Result) (s : State) : State :=
  {| mach := mach s; main := main s; workers := workers s;
     collector := collector s; discarded := discarded s;
     submitted := submitted s; executed := executed s;
     handled := handled s ++ [(j, r)];
     world := res_handler (mach s) r (world s) |}.

(** The machine [NewMachine] returned, before [Start] is called. *)
Definition init (m : Machine) (w : World) : State :=
  {| mach := m; main := MSpawn 0; workers := []; collector := None;
     discarded := []; submitted := []; executed := []; handled := [];
     world := w |}.

(** The goroutine the scheduler picks. *)
Inductive Thread :=
| TMain
| TWorker (i : nat)
| TCollector.

(** One statement of the caller: the body of [Start], then of [Wait].
    [AddInput] is inlined in the submission loop: [MSubmit] is at its
    [m.wait.Add(1)] and [MSend] at its [m.input <- input].
    [None] means the caller cannot move: it is blocked on a channel or on the
    WaitGroup, or it has returned. *)
Definition step_main (env : Env) (s : State) : option State :=
  let m := mach s in
  match main s with
  | MSpawn i =>
      if i <? consumers m
      then Some (set_main (MSpawn (Uint64.add i 1))
                   (set_workers (workers s ++ [WRecv]) s))
      else Some (set_main MSpawnOutput s)
  | MSpawnOutput =>
      Some (set_main MResetInputs (set_collector (Some CRecv) s))
  | MResetInputs =>
      Some (set_main MOpenCount (set_stats (set_Inputs 0) s))
  | MOpenCount =>
      match LineReader env 0 (filename m) 0 with
      | inl err => Some (set_main (MStartErr err) s)
      | inr lines => Some (set_main (MCount lines) s)
      end
  | MCount (_ :: lines) =>
      Some (set_main (MCount lines)
              (set_stats (fun st => set_Inputs (Uint64.add (Inputs st) 1) st) s))
  | MCount [] =>
      Some (set_main MOpenRun s)
  | MOpenRun =>
      match LineReader env 1 (filename m) 0 with
      | inl err => Some (set_main (MStartErr err) s)
      | inr lines => Some (set_main (MCheckResume lines) s)
      end
  | MCheckResume lines =>
      if 0 <? Execs (Stats m)
      then Some (set_main (MSkip (Execs (Stats m)) lines) s)
      else Some (set_main (MSubmit lines) (set_stats (set_Start (Now env 0)) s))
  | MSkip n (l :: lines) =>
      let n' := Uint64.sub n 1 in
      if n' =? 0
      then Some (set_main (MSubmit lines) (log_discarded l s))
      else Some (set_main (MSkip n' lines) (log_discarded l s))
  | MSkip n [] =>
      Some (set_main (MSubmit []) s)
  | MSubmit (l :: lines) =>
      Some (set_main (MSend l lines) (set_mach (set_wait (wait m + 1) m) s))
  | MSubmit [] =>
      Some (set_main MWait s)
  | MSend _ _ => None
  | MStartErr _ => None
  | MWait =>
      if wait m =? 0 then Some (set_main MUpdateStats s) else None
  | MUpdateStats =>
      Some (set_main MFinished (set_mach (UpdateStats (Now env 1) m) s))
  | MFinished => None
  end.

(** One statement of the [i]-th [inputConsumer].  Receiving from [m.input]
    is the joint step with the caller's send in [AddInput]; sending on
    [m.output] is the joint step with the receive of [outputConsumer].
    [m.wait.Done()] would panic on a negative counter; the counter is at
    least 1 whenever a worker is about to call it
    ([pending_positive_at_done]). *)
Definition step_worker (i : nat) (s : State) : option State :=
  let m := mach s in
  match workers s !! i with
  | None => None
  | Some WRecv =>
      match main s with
      | MSend l lines =>
          Some (set_main (MSubmit lines)
                  (set_worker i (WExec (length (submitted s)) l)
                     (log_submitted l s)))
      | _ => None
      end
  | Some (WExec j l) =>
      Some (set_worker i (WRun j l)
              (set_stats (fun st => set_Execs (Uint64.add (Execs st) 1) st) s))
  | Some (WRun j l) =>
      match run_handler m l with
      | Some res => Some (set_worker i (WCount j res) (log_executed l s))
      | None => Some (set_worker i (WDone j None) (log_executed l s))
      end
  | Some (WCount j res) =>
      Some (set_worker i (WSend j res)
              (set_stats (fun st => set_Results (Uint64.add (Results st) 1) st) s))
  | Some (WSend j res) =>
      match collector s with
      | Some CRecv =>
          Some (set_worker i (WDone j (Some res))
                  (set_collector (Some (CHandle j res)) s))
      | _ => None
      end
  | Some (WDone j _) =>
      Some (set_worker i WRecv (set_mach (set_wait (wait m - 1) m) s))
  end.

(** One statement of the [outputConsumer]: the call of the result handler
    on the result it received. *)
Definition step_collector (s : State) : option State :=
  match collector s with
  | Some (CHandle j res) =>
      Some (set_collector (Some CRecv) (log_handled j res s))
  | _ => None
  end.

Definition step (env : Env) (t : Thread) (s : State) : option State :=
  match t with
  | TMain => step_main env s
  | TWorker i => step_worker i s
  | TCollector => step_collector s
  end.

(** A schedule is run from left to right. *)
Fixpoint run (env : Env) (sched : list Thread) (s : State) : option State :=
  match sched with
  | [] => Some s
  | t :: sched' =>
      match step env t s with
      | Some s' => run env sched' s'
      | None => None
      end
  end.

(** The states a run of machine [m] can be in. *)
Definition reachable (env : Env) (m : Machine) (w : World) (s : State) : Prop :=
  exists sched, run env sched (init m w) = Some s.

End Machine.

(** ** Measures on the worker pool *)

Section Tally.
Context {Result : Type}.
Local Abbreviation Worker := (@Worker Result).

(** Sum of a per-worker quantity over the pool. *)
Fixpoint tally (f : Worker -> Z) (ws : list Worker) : Z :=
  match ws with
  | [] => 0
  | w :: ws' => f w + tally f ws'
  end.

(** A worker that holds a job: it has received a line and has not yet called
    [m.wait.Done()] for it. *)
Definition busy (w : Worker) : Z :=
  match w with WRecv => 0 | _ => 1 end.

(** A worker whose job is not yet counted in [Execs]. *)
Definition unexec (w : Worker) : Z :=
  match w with WExec _ _ => 1 | _ => 0 end.

(** A worker blocked on [m.output <- res]: its result is counted in
    [Results] and not yet received. *)
Definition sending (w : Worker) : Z :=
  match w with WSend _ _ => 1 | _ => 0 end.

(** The result a worker still has to hand to the collector. *)
Definition owed (rh : string -> option Result) (w : Worker) : list Result :=
  match w with
  | WExec _ l | WRun _ l => option_list (rh l)
  | WCount _ r | WSend _ r => [r]
  | WRecv | WDone _ _ => []
  end.

Fixpoint owed_all (rh : string -> option Result) (ws : list Worker) : list Result :=
  match ws with
  | [] => []
  | w :: ws' => owed rh w ++ owed_all rh ws'
  end.

Lemma tally_app f ws1 ws2 : tally f (ws1 ++ ws2) = tally f ws1 + tally f ws2.
Proof. induction ws1 as [|w ws1 IH]; simpl; lia. Qed.

Lemma tally_insert f ws i w w' :
  ws !! i = Some w ->
  tally f (<[i:=w']> ws) = tally f ws - f w + f w'.
Proof.
  revert i. induction ws as [|v ws IH]; intros [|i] Hi; simplify_eq/=.
  - lia.
  - rewrite (IH i Hi). lia.
Qed.

Lemma tally_replicate f n w : tally f (replicate n w) = Z.of_nat n * f w.
Proof. induction n as [|n IH]; simpl replicate; simpl tally; lia. Qed.

Lemma tally_nonneg f ws : (forall w, 0 <= f w) -> 0 <= tally f ws.
Proof.
  intros Hf. induction ws as [|w ws IH]; simpl; [lia|].
  pose proof (Hf w). lia.
Qed.

Lemma tally_lookup_le f ws i w :
  (forall v, 0 <= f v) -> ws !! i = Some w -> f w <= tally f ws.
Proof.
  intros Hf. revert i. induction ws as [|v ws IH]; intros [|i] Hi; simplify_eq/=.
  - pose proof (tally_nonneg f ws Hf). lia.
  - pose proof (IH i Hi). pose proof (Hf v). lia.
Qed.

Lemma unexec_nonneg (w : Worker) : 0 <= unexec w.
Proof. destruct w; simpl; lia. Qed.

Lemma busy_nonneg ws : 0 <= tally busy ws.
Proof. induction ws as [|[] ws IH]; simpl; lia. Qed.

Lemma busy_zero_idle ws : tally busy ws = 0 -> Forall (fun w => w = WRecv) ws.
Proof.
  induction ws as [|w ws IH]; simpl; intros H; constructor.
  - pose proof (busy_nonneg ws). destruct w; simpl in H; try lia. reflexivity.
  - apply IH. pose proof (busy_nonneg ws). destruct w; simpl in H; lia.
Qed.

Lemma idle_tally f ws :
  f WRecv = 0 -> Forall (fun w => w = WRecv) ws -> tally f ws = 0.
Proof.
  intros Hf. induction 1 as [|w ws Hw _ IH]; simpl; [reflexivity|].
  subst w. lia.
Qed.

Lemma idle_owed rh ws : Forall (fun w => w = WRecv) ws -> owed_all rh ws = [].
Proof.
  induction 1 as [|w ws Hw _ IH]; simpl; [reflexivity|]. subst w. exact IH.
Qed.

Lemma owed_all_app rh ws1 ws2 :
  owed_all rh (ws1 ++ ws2) = owed_all rh ws1 ++ owed_all rh ws2.
Proof.
  induction ws1 as [|w ws1 IH]; simpl; [reflexivity|].
  rewrite IH. apply app_assoc.
Qed.

(** Replacing one worker moves its owed result in or out of the pool's. *)
Lemma owed_all_insert rh ws i w w' :
  ws !! i = Some w ->
  owed rh w ++ owed_all rh (<[i:=w']> ws) ≡ₚ owed rh w' ++ owed_all rh ws.
Proof.
  revert i. induction ws as [|v ws IH]; intros [|i] Hi; simplify_eq/=.
  - apply Permutation_app_swap_app.
  - rewrite Permutation_app_swap_app, (IH i Hi).
    apply Permutation_app_swap_app.
Qed.

Lemma owed_all_insert_same rh ws i w w' :
  ws !! i = Some w -> owed rh w' = owed rh w ->
  owed_all rh (<[i:=w']> ws) ≡ₚ owed_all rh ws.
Proof.
  intros Hi Heq. pose proof (owed_all_insert rh ws i w w' Hi) as H.
  rewrite Heq in H. eapply Permutation_app_inv_l, H.
Qed.

(** The line a worker has received and not yet passed to
    [m.run_handler]. *)
Definition unrun (w : Worker) : list string :=
  match w with
  | WExec _ l | WRun _ l => [l]
  | _ => []
  end.

Fixpoint unrun_all (ws : list Worker) : list string :=
  match ws with
  | [] => []
  | w :: ws' => unrun w ++ unrun_all ws'
  end.

Lemma unrun_all_app ws1 ws2 :
  unrun_all (ws1 ++ ws2) = unrun_all ws1 ++ unrun_all ws2.
Proof.
  induction ws1 as [|w ws1 IH]; simpl; [reflexivity|].
  rewrite IH. apply app_assoc.
Qed.

Lemma unrun_all_insert ws i w w' :
  ws !! i = Some w ->
  unrun w ++ unrun_all (<[i:=w']> ws) ≡ₚ unrun w' ++ unrun_all ws.
Proof.
  revert i. induction ws as [|v ws IH]; intros [|i] Hi; simplify_eq/=.
  - apply Permutation_app_swap_app.
  - rewrite Permutation_app_swap_app, (IH i Hi).
    apply Permutation_app_swap_app.
Qed.

Lemma idle_unrun ws : Forall (fun w => w = WRecv) ws -> unrun_all ws = [].
Proof.
  induction 1 as [|w ws Hw _ IH]; simpl; [reflexivity|]. subst w. exact IH.
Qed.

End Tally.

(** ** Reachable states *)

Ltac break_hyps :=
  repeat match goal with
  | H : _ /\ _ |- _ => destruct H
  | H : exists _, _ |- _ => destruct H
  end.

Ltac split_goal :=
  repeat match goal with |- _ /\ _ => split end;
  try assumption; try congruence; try discriminate; try lia.

Section Run.
Context {Result World : Type}.
Local Abbreviation Machine := (@Machine Result World).
Local Abbreviation State := (@State Result World).
Local Abbreviation Worker := (@Worker Result).

Variable env : Env.
Variable m0 : Machine.
Variable w0 : World.

Lemma run_app sched1 sched2 (s : State) :
  run env (sched1 ++ sched2) s =
  match run env sched1 s with
  | Some s' => run env sched2 s'
  | None => None
  end.
Proof.
  revert s. induction sched1 as [|t sched1 IH]; intros s; simpl; [reflexivity|].
  destruct (step env t s); [apply IH | reflexivity].
Qed.

Lemma reachable_init : reachable env m0 w0 (init m0 w0).
Proof. exists []. reflexivity. Qed.

Lemma reachable_run s sched s' :
  reachable env m0 w0 s -> run env sched s = Some s' -> reachable env m0 w0 s'.
Proof.
  intros [sched0 H0] H. exists (sched0 ++ sched).
  rewrite run_app, H0. exact H.
Qed.

Lemma reachable_step s t s' :
  reachable env m0 w0 s -> step env t s = Some s' -> reachable env m0 w0 s'.
Proof.
  intros Hs H. apply (reachable_run s [t] s' Hs). simpl. rewrite H. reflexivity.
Qed.

(** Induction along a run: a property of the initial state that every step
    preserves holds in every reachable state. *)
Lemma reachable_invariant (P : State -> Prop) :
  P (init m0 w0) ->
  (forall s t s', reachable env m0 w0 s -> P s -> step env t s = Some s' -> P s') ->
  forall s, reachable env m0 w0 s -> P s.
Proof.
  intros Hinit Hstep s [sched Hrun]. revert s Hrun.
  induction sched as [|t sched IH] using rev_ind; intros s Hrun.
  - simpl in Hrun. injection Hrun as <-. exact Hinit.
  - rewrite run_app in Hrun.
    destruct (run env sched (init m0 w0)) as [s1|] eqn:H1; [|discriminate].
    simpl in Hrun. destruct (step env t s1) as [s2|] eqn:H2; [|discriminate].
    injection Hrun as <-.
    apply (Hstep s1 t s2); [exists sched; exact H1 | apply IH; reflexivity | exact H2].
Qed.

(** Case analysis on which statement a step executed. *)
Ltac step_inv H :=
  match type of H with
  | step _ ?t _ = Some _ =>
      destruct t; simpl in H;
      unfold step_main, step_worker, step_collector in H;
      repeat case_match; simplify_eq
  end.

(** *** The configuration is fixed by [NewMachine] *)

Definition same_config (s : State) : Prop :=
  consumers (mach s) = consumers m0 /\
  filename (mach s) = filename m0 /\
  run_handler (mach s) = run_handler m0 /\
  res_handler (mach s) = res_handler m0.

Lemma same_config_reachable s : reachable env m0 w0 s -> same_config s.
Proof.
  apply reachable_invariant; [repeat split|].
  intros s1 t s2 _ IH H. unfold same_config in *.
  step_inv H; simpl; exact IH.
Qed.

(** *** Counters and results in flight *)

(** The result the collector has received and whose handler call has not
    returned yet. *)
Definition in_progress (s : State) : list (nat * Result) :=
  match collector s with
  | Some (CHandle j r) => [(j, r)]
  | _ => []
  end.

(** The results that left the Result Queue so far. *)
Definition dequeued (s : State) : list (nat * Result) :=
  handled s ++ in_progress s.

(** The caller is blocked on [m.input <- input], after [m.wait.Add(1)]. *)
Definition sending_now (s : State) : Z :=
  match main s with MSend _ _ => 1 | _ => 0 end.

(** A machine as [NewMachine] builds it from a well-typed snapshot. *)
Definition wf_machine (m : Machine) : Prop :=
  wait m = 0 /\
  Uint64.in_range (consumers m) /\
  Uint64.in_range (Execs (Stats m)) /\
  Uint64.in_range (Results (Stats m)).

Hypothesis Hwf : wf_machine m0.

Lemma wrap_wrap_add a b : Uint64.wrap (Uint64.wrap a + b) = Uint64.wrap (a + b).
Proof. unfold Uint64.wrap. apply Z.add_mod_idemp_l. discriminate. Qed.

Lemma wrap_shift a b c d :
  Uint64.wrap a = Uint64.wrap b -> c - a = d - b -> Uint64.wrap c = Uint64.wrap d.
Proof.
  intros Hab Hcd.
  replace c with (a + (c - a)) by lia. replace d with (b + (c - a)) by lia.
  rewrite <- (wrap_wrap_add a), <- (wrap_wrap_add b), Hab. reflexivity.
Qed.

Lemma wrap_in_range a : Uint64.in_range (Uint64.wrap a).
Proof. unfold Uint64.in_range, Uint64.wrap. apply Z.mod_pos_bound. reflexivity. Qed.

Lemma wrap_small a : Uint64.in_range a -> Uint64.wrap a = a.
Proof. unfold Uint64.in_range, Uint64.wrap. intros H. apply Z.mod_small, H. Qed.

Lemma add_small a : 0 <= a < Uint64.modulus - 1 -> Uint64.add a 1 = a + 1.
Proof. intros H. unfold Uint64.add, Uint64.wrap. apply Z.mod_small. lia. Qed.

Lemma sub_small a : 0 < a < Uint64.modulus -> Uint64.sub a 1 = a - 1.
Proof. intros H. unfold Uint64.sub, Uint64.wrap. apply Z.mod_small. lia. Qed.

Definition counters_inv (s : State) : Prop :=
  wait (mach s) = tally busy (workers s) + sending_now s /\
  Uint64.wrap (Execs (Stats (mach s)) + tally unexec (workers s)) =
    Uint64.wrap (Execs (Stats m0) + Z.of_nat (length (submitted s))) /\
  Uint64.in_range (Execs (Stats (mach s))) /\
  Results (Stats (mach s)) =
    Uint64.wrap (Results (Stats m0) + Z.of_nat (length (dequeued s))
                 + tally sending (workers s)) /\
  map snd (dequeued s) ++ owed_all (run_handler m0) (workers s)
    ≡ₚ omap (run_handler m0) (submitted s) /\
  match main s with
  | MSpawn _ | MSpawnOutput => collector s = None
  | _ => True
  end.

Lemma counters_inv_reachable s : reachable env m0 w0 s -> counters_inv s.
Proof.
  destruct Hwf as (Hw0 & _ & HE0 & HR0).
  apply reachable_invariant.
  - unfold counters_inv, dequeued, in_progress, sending_now; simpl.
    rewrite Hw0, !Z.add_0_r, (wrap_small _ HR0). repeat split; auto; apply HE0.
  - intros s1 t s2 Hr1 IH H.
    destruct (same_config_reachable s1 Hr1) as (_ & _ & Hrh & _).
    step_inv H; destruct IH as (Hwait & Hexec & Hrange & Hres & Hperm & Hcol);
      unfold counters_inv, dequeued, in_progress, sending_now in *; simpl in *;
      repeat match goal with
      | Hm : main _ = _ |- _ => rewrite Hm in *; clear Hm
      | Hc : collector _ = _ |- _ => rewrite Hc in *; clear Hc
      | Hi : workers _ !! _ = Some _ |- _ =>
          rewrite !(tally_insert _ _ _ _ _ Hi); simpl
      | Hh : run_handler (mach _) _ = _ |- _ => rewrite Hrh in Hh
      end;
      rewrite ?tally_app, ?app_nil_r in *; simpl in *; try discriminate.
    all: split; [lia|]; split; [|split; [|split; [|split]]]; try exact I.
    all: try assumption; try apply wrap_in_range.
    all: try (unfold Uint64.add; rewrite ?wrap_wrap_add;
              eapply wrap_shift; [eassumption | rewrite ?length_app; simpl; lia]).
    all: try (rewrite Hres; unfold Uint64.add; rewrite ?wrap_wrap_add;
              f_equal; rewrite ?length_app; simpl; lia).
    all: try match goal with
         | Hi : workers _ !! _ = Some ?w
           |- context [owed_all ?rh (<[_:=?w']> _)] =>
             rewrite (owed_all_insert_same rh _ _ w w' Hi)
               by (simpl;
                   repeat match goal with
                   | Hh : run_handler _ _ = _ |- _ => rewrite Hh
                   end; reflexivity);
             assumption
         end.
    all: try reflexivity.
    all: try (destruct (main s1); simpl in *; first [discriminate | exact I]).
    + rewrite owed_all_app. simpl. rewrite app_nil_r. exact Hperm.
    + match goal with Hi : workers _ !! _ = Some WRecv |- _ =>
        pose proof (owed_all_insert (run_handler m0) _ _ _
                      (WExec (length (submitted s1)) line) Hi) as Hins
      end.
      simpl in Hins. rewrite Hins, omap_app, <- Hperm. simpl.
      destruct (run_handler m0 line); simpl; [|by rewrite app_nil_r].
      rewrite <- !app_assoc. apply Permutation_app_head.
      apply Permutation_cons_append.
    + match goal with Hi : workers _ !! _ = Some (WSend _ _) |- _ =>
        pose proof (owed_all_insert (run_handler m0) _ _ _
                      (WDone j (Some res)) Hi) as Hins
      end.
      simpl in Hins. rewrite <- Hperm, <- Hins, map_app. simpl.
      rewrite <- app_assoc. reflexivity.
Qed.

(** [m.wait.Done()] never drives the counter below zero. *)
Lemma pending_positive_at_done s i j r :
  reachable env m0 w0 s -> workers s !! i = Some (WDone j r) ->
  1 <= wait (mach s).
Proof.
  intros Hs Hi. destruct (counters_inv_reachable s Hs) as (Hwait & _).
  assert (Hb : forall v : Worker, 0 <= busy v) by (intros []; simpl; lia).
  pose proof (tally_lookup_le busy _ _ _ Hb Hi) as Hle. simpl in Hle.
  unfold sending_now in Hwait. destruct (main s); lia.
Qed.

(** While the counter cannot overflow, [Execs] counts exactly the submitted
    jobs whose worker has passed [atomic.AddUint64(&m.Stats.Execs, 1)]. *)
Definition execs_exact (s : State) : Prop :=
  Execs (Stats m0) + Z.of_nat (length (submitted s)) < Uint64.modulus ->
  Execs (Stats (mach s)) + tally unexec (workers s) =
    Execs (Stats m0) + Z.of_nat (length (submitted s)).

Lemma execs_exact_reachable s : reachable env m0 w0 s -> execs_exact s.
Proof.
  apply reachable_invariant.
  - intros _. simpl. lia.
  - intros s1 t s2 Hr1 IH H.
    destruct (counters_inv_reachable s1 Hr1) as (_ & _ & Hrange & _).
    unfold Uint64.in_range in Hrange.
    step_inv H; unfold execs_exact in *; simpl in *;
      rewrite ?length_app; simpl; intros Hlt;
      repeat match goal with
      | Hi : workers _ !! _ = Some _ |- _ =>
          rewrite !(tally_insert _ _ _ _ _ Hi); simpl;
          pose proof (tally_lookup_le unexec _ _ _ unexec_nonneg Hi);
          clear Hi
      end;
      rewrite ?tally_app; simpl in *;
      rewrite ?add_small by lia; try lia.
Qed.

(** *** Every job in flight is a submitted line *)

(** Job [j] is a submitted line on which the run handler returns [r]. *)
Definition job_result (sub : list string) (j : nat) (r : Result) : Prop :=
  exists l, sub !! j = Some l /\ run_handler m0 l = Some r.

Definition worker_ok (sub : list string) (deq : list (nat * Result))
    (w : Worker) : Prop :=
  match w with
  | WRecv => True
  | WExec j l | WRun j l => sub !! j = Some l
  | WCount j r | WSend j r => job_result sub j r
  | WDone j (Some r) => job_result sub j r /\ (j, r) ∈ deq
  | WDone j None => exists l, sub !! j = Some l /\ run_handler m0 l = None
  end.

Definition jobs_inv (s : State) : Prop :=
  Forall (worker_ok (submitted s) (dequeued s)) (workers s) /\
  Forall (fun jr => job_result (submitted s) jr.1 jr.2) (dequeued s).

Lemma job_result_mono sub l j r :
  job_result sub j r -> job_result (sub ++ [l]) j r.
Proof.
  intros (l' & Hl & Hr). exists l'. split; [|exact Hr].
  apply lookup_app_l_Some, Hl.
Qed.

Lemma worker_ok_submit sub deq l w :
  worker_ok sub deq w -> worker_ok (sub ++ [l]) deq w.
Proof.
  destruct w as [| | | | |j [r|]]; simpl; intros H;
    auto using job_result_mono, lookup_app_l_Some.
  - destruct H as [H1 H2]. split; [apply job_result_mono, H1 | exact H2].
  - destruct H as (l' & Hl & Hr). exists l'. auto using lookup_app_l_Some.
Qed.

Lemma worker_ok_dequeue sub deq x w :
  worker_ok sub deq w -> worker_ok sub (deq ++ [x]) w.
Proof.
  destruct w as [| | | | |j [r|]]; simpl; intros H; try exact H.
  destruct H as [H1 H2]. split; [exact H1 | apply elem_of_app; auto].
Qed.

Lemma jobs_inv_reachable s : reachable env m0 w0 s -> jobs_inv s.
Proof.
  apply reachable_invariant.
  - split; constructor.
  - intros s1 t s2 Hr1 IH H.
    destruct (same_config_reachable s1 Hr1) as (_ & _ & Hrh & _).
    pose proof (counters_inv_reachable s1 Hr1) as Hcnt.
    step_inv H; destruct IH as (Hws & Hdeq);
      destruct Hcnt as (_ & _ & _ & _ & _ & Hcol);
      unfold jobs_inv, dequeued, in_progress in *; simpl in *;
      repeat match goal with
      | Hm : main _ = _ |- _ => rewrite Hm in *; clear Hm
      | Hc : collector _ = _ |- _ => rewrite Hc in *; clear Hc
      | Hh : run_handler (mach _) _ = _ |- _ => rewrite Hrh in Hh
      end;
      rewrite ?app_nil_r in *; try discriminate; try (split; assumption).
    all: try match goal with
         | Hi : workers _ !! _ = Some _ |- _ =>
             pose proof (Forall_lookup_1 _ _ _ _ Hws Hi) as Hw; simpl in Hw
         end.
    all: try (split; [apply Forall_insert; [exact Hws | simpl] | exact Hdeq];
              first [exact I | exact Hw | eexists; split; eassumption]).
    + (* go m.inputConsumer() *)
      split; [|exact Hdeq]. apply Forall_app. split; [exact Hws|].
      constructor; [exact I | constructor].
    + (* a worker receives the line the caller sends *)
      split.
      * apply Forall_insert.
        -- eapply Forall_impl; [exact Hws|]. intros w. apply worker_ok_submit.
        -- simpl. apply list_lookup_middle. reflexivity.
      * eapply Forall_impl; [exact Hdeq|]. intros [j r]. apply job_result_mono.
    + (* the collector receives the result a worker sends *)
      split.
      * apply Forall_insert.
        -- eapply Forall_impl; [exact Hws|]. intros w. apply worker_ok_dequeue.
        -- simpl. split; [exact Hw|]. apply elem_of_app. right.
           apply list_elem_of_singleton. reflexivity.
      * apply Forall_app. split; [exact Hdeq|].
        constructor; [exact Hw | constructor].
Qed.

(** *** Every received line is passed to the run handler once *)

(** The calls of [m.run_handler] so far, with the lines the workers hold and
    have not yet passed to it, are the submitted lines, each as often as it
    was submitted. *)
Definition executed_inv (s : State) : Prop :=
  executed s ++ unrun_all (workers s) ≡ₚ submitted s.

Lemma executed_inv_reachable s : reachable env m0 w0 s -> executed_inv s.
Proof.
  apply reachable_invariant.
  - unfold executed_inv. simpl. reflexivity.
  - intros s1 t s2 _ IH H. unfold executed_inv in *.
    step_inv H; simpl;
      try match goal with
      | Hi : workers _ !! _ = Some ?w |- context [<[_:=?w']> _] =>
          pose proof (unrun_all_insert _ _ w w' Hi) as Hins; simpl in Hins
      end;
      try exact IH.
    + (* go m.inputConsumer() *)
      rewrite unrun_all_app. simpl. rewrite app_nil_r. exact IH.
    + (* a worker receives the line the caller sends *)
      rewrite Hins, <- IH, <- Permutation_middle.
      apply Permutation_cons_append.
    + (* atomic.AddUint64(&m.Stats.Execs, 1) *)
      apply Permutation_cons_inv in Hins. rewrite Hins. exact IH.
    + (* m.run_handler(in), non-nil *)
      rewrite <- app_assoc. simpl. rewrite Hins. exact IH.
    + (* m.run_handler(in), nil *)
      rewrite <- app_assoc. simpl. rewrite Hins. exact IH.
    + rewrite Hins. exact IH.
    + rewrite Hins. exact IH.
    + rewrite Hins. exact IH.
Qed.

(** *** Where the caller stands determines what has happened *)

(** Every worker is blocked on [m.input]. *)
Definition idle (ws : list Worker) : Prop := Forall (fun w => w = WRecv) ws.

(** The statistics are those of [NewMachine], [Inputs] apart. *)
Definition stats_kept (s : State) : Prop :=
  let st := Stats (mach s) in
  let st0 := Stats m0 in
  Start st = Start st0 /\ Stop st = Stop st0 /\ Total st = Total st0 /\
  Eps st = Eps st0 /\ Execs st = Execs st0 /\ Results st = Results st0 /\
  Progress st = Progress st0.

(** No job was submitted so far. *)
Definition quiet (s : State) : Prop :=
  idle (workers s) /\ submitted s = [] /\ handled s = [] /\
  wait (mach s) = 0 /\ world s = w0 /\ stats_kept s.

(** All goroutines are started. *)
Definition started (s : State) : Prop :=
  length (workers s) = Z.to_nat (consumers m0) /\ collector s <> None.

(** The counting pass is complete. *)
Definition counted (s : State) : Prop :=
  exists lines0,
    LineReader env 0 (filename m0) 0 = inr lines0 /\
    Inputs (Stats (mach s)) = Uint64.wrap (Z.of_nat (length lines0)).

(** The start time of the run: the snapshot's on a resumed run. *)
Definition start_time : GoTime.Time :=
  if 0 <? Execs (Stats m0) then Start (Stats m0) else Now env 0.

Definition stats_running (s : State) : Prop :=
  let st := Stats (mach s) in
  let st0 := Stats m0 in
  Start st = start_time /\ Stop st = Stop st0 /\ Total st = Total st0 /\
  Eps st = Eps st0 /\ Progress st = Progress st0.

(** What [UpdateStats] leaves behind. *)
Definition stats_final (s : State) : Prop :=
  let st := Stats (mach s) in
  Start st = start_time /\
  Stop st = Now env 1 /\
  Total st = GoTime.Sub (Now env 1) start_time /\
  Eps st = Float64.div (Float64.of_Z (Execs st)) (GoTime.Seconds (Total st)) /\
  Progress st =
    Float64.mul (Float64.div (Float64.of_Z (Execs st)) (Float64.of_Z (Inputs st)))
                (Float64.of_Z 100).

(** The lines the resume loop drops: as many as the snapshot's [Execs],
    or all of them when there are fewer. *)
Definition skipped (lines : list string) : list string :=
  take (Z.to_nat (Execs (Stats m0))) lines.

(** The submission pass: the lines of the second [LineReader] call are those
    discarded, those submitted and those still to come, in this order. *)
Definition pumping (s : State) (rest : list string) : Prop :=
  started s /\ counted s /\
  exists lines1,
    LineReader env 1 (filename m0) 0 = inr lines1 /\
    discarded s = skipped lines1 /\
    lines1 = discarded s ++ submitted s ++ rest.

Definition main_inv (s : State) : Prop :=
  match main s with
  | MSpawn i =>
      0 <= i <= consumers m0 /\ length (workers s) = Z.to_nat i /\
      collector s = None /\ quiet s /\ discarded s = [] /\
      Inputs (Stats (mach s)) = Inputs (Stats m0)
  | MSpawnOutput =>
      length (workers s) = Z.to_nat (consumers m0) /\
      collector s = None /\ quiet s /\ discarded s = [] /\
      Inputs (Stats (mach s)) = Inputs (Stats m0)
  | MResetInputs =>
      started s /\ collector s = Some CRecv /\ quiet s /\ discarded s = [] /\
      Inputs (Stats (mach s)) = Inputs (Stats m0)
  | MOpenCount =>
      started s /\ collector s = Some CRecv /\ quiet s /\ discarded s = [] /\
      Inputs (Stats (mach s)) = 0
  | MCount rest =>
      started s /\ collector s = Some CRecv /\ quiet s /\ discarded s = [] /\
      exists lines0 seen,
        LineReader env 0 (filename m0) 0 = inr lines0 /\
        lines0 = seen ++ rest /\
        Inputs (Stats (mach s)) = Uint64.wrap (Z.of_nat (length seen))
  | MOpenRun =>
      started s /\ collector s = Some CRecv /\ quiet s /\ discarded s = [] /\
      counted s
  | MCheckResume lines =>
      started s /\ collector s = Some CRecv /\ quiet s /\ discarded s = [] /\
      counted s /\ LineReader env 1 (filename m0) 0 = inr lines
  | MSkip n rest =>
      started s /\ collector s = Some CRecv /\ quiet s /\ counted s /\
      exists lines1,
        LineReader env 1 (filename m0) 0 = inr lines1 /\
        lines1 = discarded s ++ rest /\
        0 < n /\ n + Z.of_nat (length (discarded s)) = Execs (Stats m0)
  | MSubmit rest => pumping s rest /\ stats_running s
  | MSend l rest => pumping s (l :: rest) /\ stats_running s
  | MStartErr err =>
      started s /\ collector s = Some CRecv /\ quiet s /\ discarded s = [] /\
      ((LineReader env 0 (filename m0) 0 = inl err /\
        Inputs (Stats (mach s)) = 0) \/
       (counted s /\ LineReader env 1 (filename m0) 0 = inl err))
  | MWait => pumping s [] /\ stats_running s
  | MUpdateStats => pumping s [] /\ stats_running s /\ idle (workers s)
  | MFinished => pumping s [] /\ stats_final s /\ idle (workers s)
  end.

Lemma idle_lookup ws i w : idle ws -> ws !! i = Some w -> w = WRecv.
Proof. intros H Hi. exact (Forall_lookup_1 _ _ _ _ H Hi). Qed.

Lemma idle_snoc ws : idle ws -> idle (ws ++ [WRecv]).
Proof. intros H. apply Forall_app. split; [exact H | repeat constructor]. Qed.

Ltac unfold_inv :=
  unfold main_inv, pumping, quiet, started, counted, stats_kept,
    stats_running, stats_final, idle, sending_now in *;
  simpl in *.

Lemma main_inv_step_main s1 s2 :
  same_config s1 -> counters_inv s1 -> main_inv s1 ->
  step_main env s1 = Some s2 -> main_inv s2.
Proof.
  destruct Hwf as (Hw0 & Hc0 & HE0 & HR0).
  intros (Hcons & Hfile & Hrh & _) (Hwait & _) IH H.
  unfold step_main in H. rewrite Hcons, Hfile in H.
  unfold Uint64.in_range in Hc0, HE0.
  destruct (main s1) eqn:Hm; repeat case_match; simplify_eq;
    unfold_inv; rewrite ?Hm in *; break_hyps; split_goal.
  all: try (eexists; split; [eassumption|]; split_goal; fail).
  all: try (left; split; assumption).
  all: try (right; split; [eexists; split; eassumption | assumption]).
  all: repeat match goal with
       | Hb : (_ <? _) = true |- _ => apply Z.ltb_lt in Hb
       | Hb : (_ <? _) = false |- _ => apply Z.ltb_ge in Hb
       | Hb : (_ =? _) = true |- _ => apply Z.eqb_eq in Hb
       | Hb : (_ =? _) = false |- _ => apply Z.eqb_neq in Hb
       end.
  all: try (rewrite add_small by lia; rewrite ?length_app; simpl; lia).
  all: try (apply idle_snoc; assumption).
  all: try (apply busy_zero_idle; lia).
  all: try (unfold start_time;
            match goal with
            | |- context [0 <? ?e] =>
                first [ rewrite (proj2 (Z.ltb_lt 0 e)) by lia
                      | rewrite (proj2 (Z.ltb_ge 0 e)) by lia ]
            end; congruence).
  - (* the counting pass opens the file *)
    match goal with Hl : LineReader env 0 _ _ = inr ?l |- _ =>
      exists l, []; split; [exact Hl|]
    end.
    split; [reflexivity | simpl; assumption].
  - (* the counting pass reaches the end of the file *)
    match goal with Hx : ?x = _ ++ [] |- _ =>
      rewrite app_nil_r in Hx; subst x
    end.
    eexists; split; eassumption.
  - (* m.Stats.Inputs++ *)
    match goal with
    | Hx : ?x = ?seen ++ ?l0 :: _, HI : Inputs _ = _ |- _ =>
        exists x, (seen ++ [l0]); split; [assumption|];
        split; [rewrite <- app_assoc; exact Hx|];
        rewrite HI, length_app; unfold Uint64.add; rewrite wrap_wrap_add
    end.
    f_equal. simpl. lia.
  - (* resuming: n := m.Stats.Execs *)
    match goal with Hd : discarded _ = [] |- _ => rewrite Hd end.
    eexists; split; [eassumption|]. simpl. split_goal.
  - (* not resuming: nothing is discarded *)
    match goal with
    | Hd : discarded _ = [], Hs : submitted _ = [] |- _ => rewrite Hd, Hs
    end.
    eexists; split; [eassumption|]. split; [|reflexivity].
    unfold skipped. replace (Z.to_nat (Execs (Stats m0))) with 0%nat by lia.
    reflexivity.
  - (* the resume loop reaches the end of the file *)
    match goal with
    | Hx : ?x = _ ++ [], Hs : submitted _ = [] |- _ =>
        rewrite app_nil_r in Hx; rewrite Hs; exists x;
        split; [assumption|]; split; [|rewrite app_nil_r; exact Hx];
        rewrite <- Hx
    end.
    unfold skipped. symmetry. apply take_ge. subst. lia.
  - (* the resume loop breaks: n == 0 *)
    match goal with
    | Hx : ?x = _ ++ _ :: _, Hs : submitted _ = [] |- _ =>
        rewrite Hs; exists x; split; [assumption|];
        split; [|rewrite <- app_assoc; exact Hx]
    end.
    rewrite sub_small in * by lia. subst. unfold skipped.
    replace (Z.to_nat (Execs (Stats m0)))
      with (length (discarded s1 ++ [s])) by (rewrite length_app; simpl; lia).
    rewrite (app_assoc _ [s] l) || rewrite (cons_middle s), app_assoc.
    symmetry. apply take_app_length.
  - (* the resume loop goes on *)
    rewrite sub_small in * by lia.
    eexists; split; [eassumption|].
    split; [rewrite <- app_assoc; assumption|].
    rewrite length_app. simpl. lia.
Qed.

Lemma main_inv_step_worker i s1 s2 :
  main_inv s1 -> step_worker i s1 = Some s2 -> main_inv s2.
Proof.
  intros IH H. unfold step_worker in H.
  repeat case_match; simplify_eq;
    unfold_inv; destruct (main s1) eqn:Hm; simplify_eq; simpl in *;
    break_hyps.
  all: try (exfalso;
            match goal with
            | Hid : Forall _ ?ws, Hi : ?ws !! _ = Some _ |- _ =>
                pose proof (idle_lookup _ _ _ Hid Hi); discriminate
            end).
  all: rewrite ?length_insert; split_goal.
  all: try (eexists; split; [eassumption|]; split_goal; fail).
  eexists; split; [eassumption|]. split; [assumption|].
  rewrite <- app_assoc. simpl. assumption.
Qed.

Lemma main_inv_step_collector s1 s2 :
  main_inv s1 -> step_collector s1 = Some s2 -> main_inv s2.
Proof.
  intros IH H. unfold step_collector in H.
  repeat case_match; simplify_eq;
    unfold_inv; destruct (main s1) eqn:Hm; simplify_eq; simpl in *;
    break_hyps; split_goal.
  all: try (eexists; split; [eassumption|]; split_goal; fail).
Qed.

Lemma main_inv_reachable s : reachable env m0 w0 s -> main_inv s.
Proof.
  apply reachable_invariant.
  - destruct Hwf as (Hw0 & Hc0 & HE0 & HR0).
    unfold main_inv, quiet, stats_kept, idle; simpl.
    unfold Uint64.in_range in Hc0. repeat split; auto; try lia.
  - intros s1 [|i|] s2 Hr1 IH H; simpl in H.
    + eapply main_inv_step_main; eauto using same_config_reachable,
        counters_inv_reachable.
    + eapply main_inv_step_worker; eauto.
    + eapply main_inv_step_collector; eauto.
Qed.

(** *** Runs that reach the end *)

(** [s'] is reached from [s] under some schedule. *)
Definition steps (s s' : State) : Prop :=
  exists sched, run env sched s = Some s'.

Lemma steps_refl s : steps s s.
Proof. exists []. reflexivity. Qed.

Lemma steps_trans s1 s2 s3 : steps s1 s2 -> steps s2 s3 -> steps s1 s3.
Proof.
  intros [a Ha] [b Hb]. exists (a ++ b). rewrite run_app, Ha. exact Hb.
Qed.

Lemma steps_one t s s' : step env t s = Some s' -> steps s s'.
Proof. intros H. exists [t]. simpl. rewrite H. reflexivity. Qed.

Lemma reachable_steps s s' :
  reachable env m0 w0 s -> steps s s' -> reachable env m0 w0 s'.
Proof. intros Hs [sched H]. exact (reachable_run s sched s' Hs H). Qed.

(** The caller moves alone: the pool is left as it is. *)
Definition pool_same (s s' : State) : Prop :=
  workers s' = workers s /\ collector s' = collector s /\
  consumers (mach s') = consumers (mach s) /\
  filename (mach s') = filename (mach s) /\
  Execs (Stats (mach s')) = Execs (Stats (mach s)).

Lemma pool_same_refl s : pool_same s s.
Proof. repeat split. Qed.

Lemma pool_same_trans s1 s2 s3 :
  pool_same s1 s2 -> pool_same s2 s3 -> pool_same s1 s3.
Proof. unfold pool_same. intuition congruence. Qed.

(** The spawn loop ends with all [consumers] workers started. *)
Lemma spawn_loop n : forall i s,
  main s = MSpawn i -> 0 <= i ->
  i + Z.of_nat n = consumers (mach s) -> consumers (mach s) < Uint64.modulus ->
  exists s', steps s s' /\ main s' = MSpawnOutput /\
    workers s' = workers s ++ replicate n WRecv /\
    collector s' = collector s /\ mach s' = mach s.
Proof.
  induction n as [|n IH]; intros i s Hm Hi Hn Hc.
  - exists (set_main MSpawnOutput s). split.
    + apply (steps_one TMain). simpl. unfold step_main. rewrite Hm.
      rewrite (proj2 (Z.ltb_ge i _)) by lia. reflexivity.
    + simpl. rewrite app_nil_r. auto.
  - set (s1 := set_main (MSpawn (Uint64.add i 1))
                 (set_workers (workers s ++ [WRecv]) s)).
    destruct (IH (i + 1) s1) as (s' & Hst & Hm' & Hws & Hcol & Hmach);
      simpl; try lia.
    { f_equal. apply add_small. lia. }
    exists s'. split; [|split; [exact Hm'|split; [|split; assumption]]].
    + eapply steps_trans; [|exact Hst].
      apply (steps_one TMain). simpl. unfold step_main. rewrite Hm.
      rewrite (proj2 (Z.ltb_lt i _)) by lia. reflexivity.
    + rewrite Hws. simpl. rewrite <- app_assoc. reflexivity.
Qed.

(** The counting loop reaches the end of the file. *)
Lemma count_loop lines : forall s,
  main s = MCount lines ->
  exists s', steps s s' /\ main s' = MOpenRun /\ pool_same s s'.
Proof.
  induction lines as [|l lines IH]; intros s Hm.
  - exists (set_main MOpenRun s). split; [|split; [reflexivity|repeat split]].
    apply (steps_one TMain). simpl. unfold step_main. rewrite Hm. reflexivity.
  - set (s1 := set_main (MCount lines)
                 (set_stats (fun st => set_Inputs (Uint64.add (Inputs st) 1) st) s)).
    destruct (IH s1 eq_refl) as (s' & Hst & Hm' & Hp).
    exists s'. split; [|split; [exact Hm'|]].
    + eapply steps_trans; [|exact Hst].
      apply (steps_one TMain). simpl. unfold step_main. rewrite Hm. reflexivity.
    + eapply pool_same_trans; [|exact Hp]. repeat split.
Qed.

(** The resume loop ends, by a break or at the end of the file. *)
Lemma skip_loop lines : forall n s,
  main s = MSkip n lines ->
  exists s' rest, steps s s' /\ main s' = MSubmit rest /\ pool_same s s'.
Proof.
  induction lines as [|l lines IH]; intros n s Hm.
  - exists (set_main (MSubmit []) s), []. split; [|split; [reflexivity|repeat split]].
    apply (steps_one TMain). simpl. unfold step_main. rewrite Hm. reflexivity.
  - destruct (Uint64.sub n 1 =? 0) eqn:Hn.
    + exists (set_main (MSubmit lines) (log_discarded l s)), lines.
      split; [|split; [reflexivity|repeat split]].
      apply (steps_one TMain). simpl. unfold step_main. rewrite Hm. simpl.
      rewrite Hn. reflexivity.
    + set (s1 := set_main (MSkip (Uint64.sub n 1) lines) (log_discarded l s)).
      destruct (IH _ s1 eq_refl) as (s' & rest & Hst & Hm' & Hp).
      exists s', rest. split; [|split; [exact Hm'|]].
      * eapply steps_trans; [|exact Hst].
        apply (steps_one TMain). simpl. unfold step_main. rewrite Hm. simpl.
        rewrite Hn. reflexivity.
      * eapply pool_same_trans; [|exact Hp]. repeat split.
Qed.

(** The schedule under which the first worker takes a submitted line
    through its whole life cycle before the caller submits the next one. *)
Definition job_schedule (positive : bool) : list Thread :=
  [TMain; TWorker 0; TWorker 0; TWorker 0] ++
  (if positive then [TWorker 0; TWorker 0; TCollector] else []) ++
  [TWorker 0].

Lemma run_cons t sched (s s1 s2 : State) :
  step env t s = Some s1 -> run env sched s1 = Some s2 ->
  run env (t :: sched) s = Some s2.
Proof. intros H1 H2. simpl. rewrite H1. exact H2. Qed.

Lemma job_round l rest ws s :
  main s = MSubmit (l :: rest) -> workers s = WRecv :: ws ->
  collector s = Some CRecv ->
  exists s', steps s s' /\ main s' = MSubmit rest /\
    workers s' = workers s /\ collector s' = Some CRecv.
Proof.
  intros Hm Hws Hcol.
  (* m.wait.Add(1) *)
  set (s1 := set_main (MSend l rest)
               (set_mach (set_wait (wait (mach s) + 1) (mach s)) s)).
  assert (H1 : step env TMain s = Some s1).
  { simpl. unfold step_main. rewrite Hm. reflexivity. }
  (* the first worker receives the line *)
  set (j := length (submitted s)).
  set (s2 := set_main (MSubmit rest)
               (set_worker 0 (WExec j l) (log_submitted l s1))).
  assert (H2 : step env (TWorker 0) s1 = Some s2).
  { simpl. unfold step_worker. simpl. rewrite Hws. reflexivity. }
  (* it counts the execution *)
  set (s3 := set_worker 0 (WRun j l)
               (set_stats (fun st => set_Execs (Uint64.add (Execs st) 1) st) s2)).
  assert (H3 : step env (TWorker 0) s2 = Some s3).
  { simpl. unfold step_worker. simpl. rewrite Hws. reflexivity. }
  assert (Hrh : run_handler (mach s3) = run_handler (mach s)) by reflexivity.
  destruct (run_handler (mach s) l) as [r|] eqn:Hr.
  - set (s4 := set_worker 0 (WCount j r) (log_executed l s3)).
    assert (H4 : step env (TWorker 0) s3 = Some s4).
    { simpl. unfold step_worker. simpl. rewrite Hws. simpl. rewrite Hr.
      reflexivity. }
    set (s5 := set_worker 0 (WSend j r)
                 (set_stats (fun st => set_Results (Uint64.add (Results st) 1) st) s4)).
    assert (H5 : step env (TWorker 0) s4 = Some s5).
    { simpl. unfold step_worker. simpl. rewrite Hws. reflexivity. }
    set (s6 := set_worker 0 (WDone j (Some r))
                 (set_collector (Some (CHandle j r)) s5)).
    assert (H6 : step env (TWorker 0) s5 = Some s6).
    { simpl. unfold step_worker. simpl. rewrite Hws, Hcol. reflexivity. }
    set (s7 := set_collector (Some CRecv) (log_handled j r s6)).
    assert (H7 : step env TCollector s6 = Some s7) by reflexivity.
    set (s8 := set_worker 0 WRecv
                 (set_mach (set_wait (wait (mach s7) - 1) (mach s7)) s7)).
    assert (H8 : step env (TWorker 0) s7 = Some s8).
    { simpl. unfold step_worker. simpl. rewrite Hws. reflexivity. }
    exists s8. split; [exists (job_schedule true)|].
    + repeat (eapply run_cons; [eassumption|]). reflexivity.
    + simpl. rewrite Hws. auto.
  - set (s4 := set_worker 0 (WDone j None) (log_executed l s3)).
    assert (H4 : step env (TWorker 0) s3 = Some s4).
    { simpl. unfold step_worker. simpl. rewrite Hws. simpl. rewrite Hr.
      reflexivity. }
    set (s5 := set_worker 0 WRecv
                 (set_mach (set_wait (wait (mach s4) - 1) (mach s4)) s4)).
    assert (H5 : step env (TWorker 0) s4 = Some s5).
    { simpl. unfold step_worker. simpl. rewrite Hws. reflexivity. }
    exists s5. split; [exists (job_schedule false)|].
    + repeat (eapply run_cons; [eassumption|]). reflexivity.
    + simpl. rewrite Hws. auto.
Qed.

(** The submission loop ends when every worker is idle at its start. *)
Lemma submit_loop lines : forall ws s,
  main s = MSubmit lines -> workers s = WRecv :: ws ->
  collector s = Some CRecv ->
  exists s', steps s s' /\ main s' = MSubmit [] /\
    workers s' = workers s /\ collector s' = Some CRecv.
Proof.
  induction lines as [|l lines IH]; intros ws s Hm Hws Hcol.
  - exists s. auto using steps_refl.
  - destruct (job_round l lines ws s Hm Hws Hcol) as (s1 & Hst & Hm1 & Hws1 & Hc1).
    destruct (IH ws s1 Hm1) as (s' & Hst' & Hm' & Hws' & Hc'); [congruence|exact Hc1|].
    exists s'. split; [eapply steps_trans; eassumption|].
    split; [exact Hm'|]. split; [congruence | exact Hc'].
Qed.

Lemma reach_open_count :
  exists s, reachable env m0 w0 s /\ main s = MOpenCount.
Proof.
  destruct Hwf as (Hw0 & Hc0 & _). unfold Uint64.in_range in Hc0.
  destruct (spawn_loop (Z.to_nat (consumers m0)) 0 (init m0 w0))
    as (s1 & Hst & Hm1 & _); simpl; try lia; try reflexivity.
  exists (set_main MOpenCount
            (set_stats (set_Inputs 0)
               (set_main MResetInputs (set_collector (Some CRecv) s1)))).
  split; [|reflexivity].
  eapply reachable_steps; [apply reachable_init|].
  eapply steps_trans; [exact Hst|].
  exists [TMain; TMain]. simpl. unfold step_main. rewrite Hm1. reflexivity.
Qed.

Lemma reach_open_run lines0 :
  LineReader env 0 (filename m0) 0 = inr lines0 ->
  exists s, reachable env m0 w0 s /\ main s = MOpenRun.
Proof.
  intros H0. destruct reach_open_count as (s & Hs & Hm).
  destruct (same_config_reachable s Hs) as (_ & Hfile & _).
  destruct (count_loop lines0 (set_main (MCount lines0) s) eq_refl)
    as (s' & Hst & Hm' & _).
  exists s'. split; [|exact Hm'].
  eapply reachable_steps; [|exact Hst].
  apply (reachable_step s TMain); [exact Hs|].
  simpl. unfold step_main. rewrite Hm, Hfile, H0. reflexivity.
Qed.

Lemma reach_open_run_pool s :
  reachable env m0 w0 s -> main s = MOpenRun ->
  idle (workers s) /\ length (workers s) = Z.to_nat (consumers m0) /\
  collector s = Some CRecv.
Proof.
  intros Hs Hm. pose proof (main_inv_reachable s Hs) as Hinv.
  unfold main_inv in Hinv. rewrite Hm in Hinv.
  destruct Hinv as ((Hlen & _) & Hcol & (Hidle & _) & _). auto.
Qed.

Lemma reach_submit lines0 lines1 :
  LineReader env 0 (filename m0) 0 = inr lines0 ->
  LineReader env 1 (filename m0) 0 = inr lines1 ->
  exists s rest, reachable env m0 w0 s /\ main s = MSubmit rest /\
    idle (workers s) /\ length (workers s) = Z.to_nat (consumers m0) /\
    collector s = Some CRecv.
Proof.
  intros H0 H1. destruct (reach_open_run lines0 H0) as (s & Hs & Hm).
  destruct (reach_open_run_pool s Hs Hm) as (Hidle & Hlen & Hcol).
  destruct (same_config_reachable s Hs) as (_ & Hfile & _).
  set (s1 := set_main (MCheckResume lines1) s).
  assert (Hs1 : reachable env m0 w0 s1).
  { apply (reachable_step s TMain); [exact Hs|].
    simpl. unfold step_main. rewrite Hm, Hfile, H1. reflexivity. }
  destruct (0 <? Execs (Stats (mach s1))) eqn:Hres.
  - destruct (skip_loop lines1 (Execs (Stats (mach s1)))
                (set_main (MSkip (Execs (Stats (mach s1))) lines1) s1) eq_refl)
      as (s' & rest & Hst & Hm' & Hws & Hc & _).
    exists s', rest. split; [|split; [exact Hm'|]].
    + eapply reachable_steps; [|exact Hst].
      apply (reachable_step s1 TMain); [exact Hs1|].
      simpl. unfold step_main. simpl main. cbv iota. rewrite Hres. reflexivity.
    + simpl in Hws, Hc. rewrite Hws, Hc. auto.
  - exists (set_main (MSubmit lines1) (set_stats (set_Start (Now env 0)) s1)), lines1.
    split; [|split; [reflexivity|simpl; auto]].
    apply (reachable_step s1 TMain); [exact Hs1|].
    simpl. unfold step_main. simpl main. cbv iota. rewrite Hres. reflexivity.
Qed.

(** [Start] returns the error of a failing [LineReader] call. *)
Lemma start_fails err :
  LineReader env 0 (filename m0) 0 = inl err \/
  (exists lines0, LineReader env 0 (filename m0) 0 = inr lines0 /\
                  LineReader env 1 (filename m0) 0 = inl err) ->
  exists s, reachable env m0 w0 s /\ main s = MStartErr err.
Proof.
  intros [H0 | (lines0 & H0 & H1)].
  - destruct reach_open_count as (s & Hs & Hm).
    destruct (same_config_reachable s Hs) as (_ & Hfile & _).
    exists (set_main (MStartErr err) s). split; [|reflexivity].
    apply (reachable_step s TMain); [exact Hs|].
    simpl. unfold step_main. rewrite Hm, Hfile, H0. reflexivity.
  - destruct (reach_open_run lines0 H0) as (s & Hs & Hm).
    destruct (same_config_reachable s Hs) as (_ & Hfile & _).
    exists (set_main (MStartErr err) s). split; [|reflexivity].
    apply (reachable_step s TMain); [exact Hs|].
    simpl. unfold step_main. rewrite Hm, Hfile, H1. reflexivity.
Qed.

(** With at least one worker, a run whose file opens twice has a schedule
    under which [Wait] returns and the collector has handled every result. *)
Lemma run_completes lines0 lines1 :
  LineReader env 0 (filename m0) 0 = inr lines0 ->
  LineReader env 1 (filename m0) 0 = inr lines1 ->
  0 < consumers m0 ->
  exists s, reachable env m0 w0 s /\ main s = MFinished /\
            collector s = Some CRecv.
Proof.
  intros H0 H1 Hpos.
  destruct (reach_submit lines0 lines1 H0 H1)
    as (s & rest & Hs & Hm & Hidle & Hlen & Hcol).
  destruct (workers s) as [|w ws] eqn:Hws; [simpl in Hlen; lia|].
  assert (w = WRecv) by (inversion Hidle; assumption). subst w.
  destruct (submit_loop rest ws s Hm Hws Hcol) as (s1 & Hst & Hm1 & Hws1 & Hc1).
  pose proof (reachable_steps s s1 Hs Hst) as Hs1.
  destruct (counters_inv_reachable s1 Hs1) as (Hwait & _).
  unfold sending_now in Hwait.
  rewrite Hm1, Hws1, Hws, (idle_tally busy _ eq_refl Hidle) in Hwait.
  exists (set_main MFinished
            (set_mach (UpdateStats (Now env 1) (mach s1))
               (set_main MUpdateStats (set_main MWait s1)))).
  split; [|split; [reflexivity|exact Hc1]].
  eapply reachable_steps; [exact Hs1|].
  exists [TMain; TMain; TMain]. simpl. unfold step_main. rewrite Hm1. simpl.
  rewrite Hwait. reflexivity.
Qed.

End Run.

(** ** What [NewMachine] builds *)

Section NewMachineFacts.
Context {Result World : Type}.
Local Abbreviation Machine := (@Machine Result World).

(** The [Execs] of the snapshot a session carries, 0 when it carries none. *)
Definition prior_execs (sess : Session) : Z :=
  match SessionStats sess with
  | Some st => Execs st
  | None => 0
  end.

(** The counters of a snapshot are [uint64] values. *)
Definition valid_stats (st : Statistics) : Prop :=
  Uint64.in_range (Inputs st) /\ Uint64.in_range (Execs st) /\
  Uint64.in_range (Results st).

Definition valid_session (sess : Session) : Prop :=
  forall st, SessionStats sess = Some st -> valid_stats st.

(** [consumers] and [runtime.NumCPU() * 2] are [int] values, and there is at
    least one CPU. *)
Definition valid_platform (env : Env) (consumers : Z) : Prop :=
  0 < NumCPU env /\ NumCPU env * 2 < 2 ^ 63 /\ consumers < 2 ^ 63.

Variable env : Env.
Variable c : Z.
Variable f : string.
Variable sess : Session.
Variable rh : @RunHandler Result.
Variable oh : @ResultHandler Result World.
Variable m : Machine.
Hypothesis Hnew : NewMachine env c f (Some sess) rh oh = inr m.

Lemma NewMachine_fields :
  filename m = f /\ run_handler m = rh /\ res_handler m = oh /\ wait m = 0 /\
  consumers m = (if c <=? 0 then Uint64.wrap (NumCPU env * 2) else Uint64.wrap c).
Proof. unfold NewMachine in Hnew. simplify_eq. simpl. auto. Qed.

Lemma NewMachine_fresh : prior_execs sess <= 0 -> Stats m = zeroStatistics.
Proof.
  unfold NewMachine, prior_execs in *. intros Hk. simplify_eq. simpl.
  destruct (SessionStats sess) as [st|]; [|reflexivity].
  rewrite (proj2 (Z.ltb_ge 0 (Execs st))) by lia. reflexivity.
Qed.

Lemma NewMachine_resumed p :
  SessionStats sess = Some p -> 0 < Execs p -> Stats m = p.
Proof.
  unfold NewMachine in *. intros Hp Hk. simplify_eq. simpl.
  rewrite Hp, (proj2 (Z.ltb_lt 0 (Execs p))) by lia. reflexivity.
Qed.

Lemma NewMachine_wf : valid_session sess -> wf_machine m.
Proof.
  intros Hv. destruct NewMachine_fields as (_ & _ & _ & Hw & Hc).
  split; [exact Hw|]. split; [rewrite Hc; case_match; apply wrap_in_range|].
  assert (Hz : Uint64.in_range 0) by (unfold Uint64.in_range, Uint64.modulus; lia).
  unfold NewMachine in Hnew. simplify_eq. simpl.
  destruct (SessionStats sess) as [st|] eqn:Hst; [|auto].
  destruct (0 <? Execs st); [|auto].
  destruct (Hv st Hst) as (_ & ? & ?). auto.
Qed.

Lemma NewMachine_fresh_wf : prior_execs sess <= 0 -> wf_machine m.
Proof.
  intros Hk. destruct NewMachine_fields as (_ & _ & _ & Hw & Hc).
  split; [exact Hw|]. split; [rewrite Hc; case_match; apply wrap_in_range|].
  rewrite (NewMachine_fresh Hk).
  split; simpl; unfold Uint64.in_range, Uint64.modulus; lia.
Qed.

Lemma NewMachine_consumers_pos : valid_platform env c -> 0 < consumers m.
Proof.
  intros (Hcpu & Hcpu2 & Hc). destruct NewMachine_fields as (_ & _ & _ & _ & ->).
  unfold Uint64.wrap, Uint64.modulus.
  destruct (c <=? 0) eqn:Hle.
  - rewrite Z.mod_small; lia.
  - apply Z.leb_gt in Hle. rewrite Z.mod_small; lia.
Qed.

End NewMachineFacts.

(** ** The outcome of a complete run *)

Section Outcome.
Context {Result World : Type}.
Local Abbreviation Machine := (@Machine Result World).
Local Abbreviation State := (@State Result World).

Variable env : Env.
Variable m0 : Machine.
Variable w0 : World.
Hypothesis Hwf : wf_machine m0.

(** The counting pass is over: the caller is at the second [LineReader]
    call or beyond. *)
Definition after_counting (p : @Main) : bool :=
  match p with
  | MSpawn _ | MSpawnOutput | MResetInputs | MOpenCount | MCount _
  | MStartErr _ => false
  | _ => true
  end.

(** When every worker is idle, the counters tell what was submitted and
    what was dequeued. *)
Lemma idle_counters (s : State) :
  reachable env m0 w0 s -> idle (workers s) ->
  Execs (Stats (mach s)) =
    Uint64.wrap (Execs (Stats m0) + Z.of_nat (length (submitted s))) /\
  Results (Stats (mach s)) =
    Uint64.wrap (Results (Stats m0) +
                 Z.of_nat (length (omap (run_handler m0) (submitted s)))) /\
  map snd (dequeued s) ≡ₚ omap (run_handler m0) (submitted s).
Proof.
  intros Hs Hidle.
  destruct (counters_inv_reachable env m0 w0 Hwf s Hs)
    as (_ & Hexec & Hrange & Hres & Hperm & _).
  rewrite (idle_tally unexec _ eq_refl Hidle), Z.add_0_r in Hexec.
  rewrite (idle_tally sending _ eq_refl Hidle), Z.add_0_r in Hres.
  rewrite (idle_owed _ _ Hidle), app_nil_r in Hperm.
  rewrite (wrap_small _ Hrange) in Hexec.
  split; [exact Hexec|]. split; [|exact Hperm].
  rewrite Hres, <- (Permutation_length Hperm), length_map. reflexivity.
Qed.

(** When every worker is idle, the run handler has been called exactly once
    for every line submitted. *)
Lemma idle_executed (s : State) :
  reachable env m0 w0 s -> idle (workers s) -> executed s ≡ₚ submitted s.
Proof.
  intros Hs Hidle. pose proof (executed_inv_reachable env m0 w0 s Hs) as H.
  unfold executed_inv in H. rewrite (idle_unrun _ Hidle), app_nil_r in H.
  exact H.
Qed.

Lemma finished_outcome (s : State) :
  reachable env m0 w0 s -> main s = MFinished ->
  exists lines0 lines1,
    LineReader env 0 (filename m0) 0 = inr lines0 /\
    LineReader env 1 (filename m0) 0 = inr lines1 /\
    Inputs (Stats (mach s)) = Uint64.wrap (Z.of_nat (length lines0)) /\
    discarded s = take (Z.to_nat (Execs (Stats m0))) lines1 /\
    submitted s = drop (Z.to_nat (Execs (Stats m0))) lines1 /\
    idle (workers s) /\ stats_final env m0 s.
Proof.
  intros Hs Hm. pose proof (main_inv_reachable env m0 w0 Hwf s Hs) as Hinv.
  unfold main_inv in Hinv. rewrite Hm in Hinv.
  destruct Hinv as ((_ & (lines0 & H0 & HI) & lines1 & H1 & Hd & Hl) & Hfin & Hidle).
  unfold skipped in Hd.
  exists lines0, lines1. do 4 (split; [assumption|]). split; [|auto].
  rewrite app_nil_r in Hl.
  rewrite <- (take_drop (Z.to_nat (Execs (Stats m0))) lines1) in Hl at 1.
  rewrite Hd in Hl. apply app_inv_head in Hl. symmetry. exact Hl.
Qed.

End Outcome.

(** ** A concrete wordlist

    The scenario of a three-line wordlist on which the run handler reports
    the line "root", with two workers. *)

Module Demo.
Definition words : list string :=
  ["admin"%string; "root"%string; "guest"%string].

Definition env : Env :=
  {| NumCPU := 2;
     LineReader := fun _ _ _ => inr words;
     Now := fun n => Z.of_nat n * 1000000000 |}.

Definition find_root : @RunHandler string :=
  fun l => if String.eqb l "root" then Some l else None.

Definition collect : @ResultHandler string (list string) :=
  fun r w => r :: w.

Definition no_session : Session := {| SessionStats := None |}.

(** A snapshot of a run stopped after two executions, one of them
    positive. *)
Definition snapshot : Statistics :=
  {| Start := 5; Stop := 0; Total := 0; Inputs := 3; Eps := Float64.zero;
     Execs := 2; Results := 1; Progress := Float64.zero |}.

Definition session : Session := {| SessionStats := Some snapshot |}.

Definition machine (st : Statistics) : @Machine string (list string) :=
  {| Stats := st; consumers := 2; filename := "words.txt";
     wait := 0; run_handler := find_root; res_handler := collect |}.

End Demo.

(** Discharges the side conditions of a theorem at the concrete wordlist. *)
Ltac demo_arith :=
  unfold valid_platform, valid_stats, prior_execs, Uint64.in_range,
    Uint64.modulus;
  simpl; repeat split;
  first [ lia | reflexivity | cbv; first [reflexivity | discriminate] ].

Ltac demo_side :=
  first
    [ reflexivity
    | let st := fresh in let H := fresh in
      intros st H; injection H as <-; demo_arith
    | demo_arith ].

(** The state the demo machine reaches under a schedule. *)
Definition demo_state (st : Statistics) (sched : list Thread)
    : @State string (list string) :=
  default (init (Demo.machine st) [])
          (run Demo.env sched (init (Demo.machine st) [])).

(** A whole run of the demo wordlist without resume. *)
Definition fresh_demo_run : list Thread :=
  replicate 12 TMain ++ job_schedule false ++ job_schedule true ++
  job_schedule false ++ [TMain; TMain; TMain].

(** The schedule that runs the demo wordlist up to the point where the first
    worker has handed the result "root" to the collector. *)
Definition root_handed_over : list Thread :=
  replicate 12 TMain ++ job_schedule false ++
  [TMain; TWorker 0; TWorker 0; TWorker 0; TWorker 0; TWorker 0].

(** The schedule of a whole resumed run of the demo wordlist: the first two
    lines are skipped, "guest" is submitted and yields no result. *)
Definition resumed_demo_run : list Thread :=
  replicate 14 TMain ++ job_schedule false ++ [TMain; TMain; TMain].

(** ** Runs without resume *)

(** C1: on a wordlist that opens for both passes and is the same in both,
    with no resume skip (the session carries no executions), whenever [Start]
    succeeded and [Wait] has returned, [Execs] equals [Inputs]: the lines
    submitted are exactly the lines of the file, none is discarded, and
    [Execs] counts them.  Every line was processed exactly once: no worker
    holds a job any more, the calls of [m.run_handler] were made on the lines
    of the file, one call per line, and the results that left the workers
    are the non-nil results of the handler on these lines.  Such a run
    exists: [Wait] does return under some schedule. *)
Theorem fresh_run_execs_eq_inputs {Result World : Type}
    (env : Env) (c : Z) (f : string) (sess : Session)
    (rh : @RunHandler Result) (oh : @ResultHandler Result World)
    (w : World) (m : Machine) (lines : list string) :
  NewMachine env c f (Some sess) rh oh = inr m ->
  valid_platform env c ->
  prior_execs sess = 0 ->
  LineReader env 0 f 0 = inr lines ->
  LineReader env 1 f 0 = inr lines ->
  (forall s, reachable env m w s -> main s = MFinished ->
     Execs (Stats (mach s)) = Inputs (Stats (mach s)) /\
     discarded s = [] /\ submitted s = lines /\
     Execs (Stats (mach s)) = Uint64.wrap (Z.of_nat (length lines)) /\
     idle (workers s) /\
     executed s ≡ₚ lines /\
     map snd (dequeued s) ≡ₚ omap rh lines) /\
  (exists s, reachable env m w s /\ main s = MFinished).
Proof.
  intros Hnew Hplat Hk H0 H1.
  assert (Hwf : wf_machine m) by (apply (NewMachine_fresh_wf _ _ _ _ _ _ _ Hnew); lia).
  destruct (NewMachine_fields _ _ _ _ _ _ _ Hnew) as (Hf & Hrh & _).
  pose proof (NewMachine_fresh _ _ _ _ _ _ _ Hnew ltac:(lia)) as Hst.
  subst f. split.
  - intros s Hs Hm.
    destruct (finished_outcome env m w Hwf s Hs Hm)
      as (l0 & l1 & H0' & H1' & HI & Hd & Hsub & Hidle & _).
    destruct (idle_counters env m w Hwf s Hs Hidle) as (HE & _ & Hdeq).
    pose proof (idle_executed env m w s Hs Hidle) as Hex.
    rewrite Hst in Hd, Hsub, HE. simpl in Hd, Hsub, HE.
    rewrite H0 in H0'. rewrite H1 in H1'. simplify_eq.
    rewrite Hsub in Hdeq, Hex.
    rewrite HE, HI, Hsub, Hd. auto 10.
  - destruct (run_completes env m w Hwf lines lines H0 H1) as (s & Hs & Hm & _).
    + exact (NewMachine_consumers_pos _ _ _ _ _ _ _ Hnew Hplat).
    + exists s. auto.
Qed.

Lemma fresh_run_execs_eq_inputs_witness :
  (forall s, reachable Demo.env (Demo.machine zeroStatistics) [] s ->
     main s = MFinished ->
     Execs (Stats (mach s)) = Inputs (Stats (mach s)) /\
     discarded s = [] /\ submitted s = Demo.words /\
     Execs (Stats (mach s)) = Uint64.wrap (Z.of_nat (length Demo.words)) /\
     idle (workers s) /\
     executed s ≡ₚ Demo.words /\
     map snd (dequeued s) ≡ₚ omap Demo.find_root Demo.words) /\
  (exists s, reachable Demo.env (Demo.machine zeroStatistics) [] s /\
             main s = MFinished).
Proof.
  apply (fresh_run_execs_eq_inputs Demo.env 2 "words.txt" Demo.no_session
           Demo.find_root Demo.collect).
  all: demo_side.
Defined.

(** ** Resumed runs *)

(** C2: with a prior snapshot whose [Execs] is [k], 0 < k <= the number of
    lines, and a wordlist that is the same in both passes, whenever [Wait]
    has returned the run has discarded exactly the first [k] lines and
    submitted exactly the remaining [Inputs - k], and [Execs] equals
    [Inputs].  Such a run exists. *)
Theorem resumed_run_skips_and_completes {Result World : Type}
    (env : Env) (c : Z) (f : string) (sess : Session) (p : Statistics)
    (rh : @RunHandler Result) (oh : @ResultHandler Result World)
    (w : World) (m : Machine) (lines : list string) :
  NewMachine env c f (Some sess) rh oh = inr m ->
  valid_platform env c ->
  SessionStats sess = Some p ->
  valid_stats p ->
  0 < Execs p <= Z.of_nat (length lines) ->
  Z.of_nat (length lines) < Uint64.modulus ->
  LineReader env 0 f 0 = inr lines ->
  LineReader env 1 f 0 = inr lines ->
  (forall s, reachable env m w s -> main s = MFinished ->
     discarded s = take (Z.to_nat (Execs p)) lines /\
     Z.of_nat (length (discarded s)) = Execs p /\
     submitted s = drop (Z.to_nat (Execs p)) lines /\
     Z.of_nat (length (submitted s)) = Inputs (Stats (mach s)) - Execs p /\
     Execs (Stats (mach s)) = Inputs (Stats (mach s))) /\
  (exists s, reachable env m w s /\ main s = MFinished).
Proof.
  intros Hnew Hplat Hp Hv Hk Hlen H0 H1.
  assert (Hwf : wf_machine m).
  { apply (NewMachine_wf _ _ _ _ _ _ _ Hnew). intros st Hst.
    rewrite Hp in Hst. injection Hst as <-. exact Hv. }
  destruct (NewMachine_fields _ _ _ _ _ _ _ Hnew) as (Hf & _).
  pose proof (NewMachine_resumed _ _ _ _ _ _ _ Hnew p Hp ltac:(lia)) as Hst.
  subst f. split.
  - intros s Hs Hm.
    destruct (finished_outcome env m w Hwf s Hs Hm)
      as (l0 & l1 & H0' & H1' & HI & Hd & Hsub & Hidle & _).
    destruct (idle_counters env m w Hwf s Hs Hidle) as (HE & _).
    rewrite Hst in Hd, Hsub, HE.
    rewrite H0 in H0'. rewrite H1 in H1'.
    injection H0' as <-. injection H1' as <-.
    assert (HIn : Inputs (Stats (mach s)) = Z.of_nat (length lines)).
    { rewrite HI. apply wrap_small. unfold Uint64.in_range. lia. }
    assert (Hls : Z.of_nat (length (submitted s)) =
                  Z.of_nat (length lines) - Execs p).
    { rewrite Hsub, length_drop. lia. }
    split; [exact Hd|]. split; [rewrite Hd, length_take; lia|].
    split; [exact Hsub|]. split; [lia|].
    rewrite HE, HI. f_equal. lia.
  - destruct (run_completes env m w Hwf lines lines H0 H1) as (s & Hs & Hm & _).
    + exact (NewMachine_consumers_pos _ _ _ _ _ _ _ Hnew Hplat).
    + exists s. auto.
Qed.

Lemma resumed_run_skips_and_completes_witness :
  (forall s, reachable Demo.env (Demo.machine Demo.snapshot) [] s ->
     main s = MFinished ->
     discarded s = take (Z.to_nat (Execs Demo.snapshot)) Demo.words /\
     Z.of_nat (length (discarded s)) = Execs Demo.snapshot /\
     submitted s = drop (Z.to_nat (Execs Demo.snapshot)) Demo.words /\
     Z.of_nat (length (submitted s)) =
       Inputs (Stats (mach s)) - Execs Demo.snapshot /\
     Execs (Stats (mach s)) = Inputs (Stats (mach s))) /\
  (exists s, reachable Demo.env (Demo.machine Demo.snapshot) [] s /\
             main s = MFinished).
Proof.
  apply (resumed_run_skips_and_completes Demo.env 2 "words.txt" Demo.session
           Demo.snapshot Demo.find_root Demo.collect).
  all: demo_side.
Defined.

(** ** Failure to open the wordlist *)

Module FailDemo.
Definition err : Error := IOError "open words.txt: no such file or directory".

(** The file is missing. *)
Definition env : Env :=
  {| NumCPU := 2;
     LineReader := fun _ _ _ => inl err;
     Now := fun n => Z.of_nat n * 1000000000 |}.
End FailDemo.

(** C7: when a [LineReader] call of [Start] fails, be it the one of the
    counting pass or the one of the submission pass, no job is ever submitted
    (no line reaches a worker, the WaitGroup stays at zero, every worker
    stays idle, no result is handled, [Execs] is untouched), no worker and
    no collector ever moves, the caller never blocks and can only return that
    error, and it does return it. *)
Theorem start_open_failure {Result World : Type}
    (env : Env) (c : Z) (f : string) (sess : Session)
    (rh : @RunHandler Result) (oh : @ResultHandler Result World)
    (w : World) (m : Machine) (err : Error) :
  NewMachine env c f (Some sess) rh oh = inr m ->
  valid_session sess ->
  LineReader env 0 f 0 = inl err \/
    (exists lines0, LineReader env 0 f 0 = inr lines0 /\
                    LineReader env 1 f 0 = inl err) ->
  (forall s, reachable env m w s ->
     submitted s = [] /\ wait (mach s) = 0 /\ handled s = [] /\
     idle (workers s) /\ Execs (Stats (mach s)) = Execs (Stats m) /\
     (forall i, step env (TWorker i) s = None) /\
     step env TCollector s = None /\
     (step_main env s = None -> main s = MStartErr err)) /\
  (exists s, reachable env m w s /\ main s = MStartErr err).
Proof.
  intros Hnew Hv Hfail.
  pose proof (NewMachine_wf _ _ _ _ _ _ _ Hnew Hv) as Hwf.
  destruct (NewMachine_fields _ _ _ _ _ _ _ Hnew) as (Hf & _). subst f.
  split; [|exact (start_fails env m w Hwf err Hfail)].
  intros s Hs. pose proof (main_inv_reachable env m w Hwf s Hs) as Hinv.
  destruct (same_config_reachable env m w s Hs) as (Hcons & Hfile & _).
  assert (Hq : idle (workers s) /\ submitted s = [] /\ wait (mach s) = 0 /\
               handled s = [] /\ Execs (Stats (mach s)) = Execs (Stats m) /\
               (collector s = None \/ collector s = Some CRecv) /\
               (forall l rest, main s <> MSend l rest) /\
               (step_main env s = None -> main s = MStartErr err)).
  { unfold step_main. rewrite Hfile.
    unfold main_inv, pumping, quiet, counted, stats_kept in Hinv.
    destruct (main s) eqn:Hm; break_hyps;
      try (destruct Hfail as [Hfail | (l0 & Hfail0 & Hfail)]; congruence);
      repeat split; try assumption; try discriminate; auto;
      repeat case_match; try discriminate; try congruence.
    all: intros _; f_equal;
      repeat match goal with
      | H : _ \/ _ |- _ => destruct H
      | H : _ /\ _ |- _ => destruct H
      | H : exists _, _ |- _ => destruct H
      end; congruence. }
  destruct Hq as (Hidle & Hsub & Hwait & Hh & HE & Hcol & Hsend & Hret).
  do 5 (split; [assumption|]). split; [|split; [|exact Hret]].
  - intros i. simpl. unfold step_worker.
    destruct (workers s !! i) as [v|] eqn:Hi; [|reflexivity].
    rewrite (idle_lookup _ _ _ Hidle Hi).
    destruct (main s) eqn:Hm; try reflexivity.
    exfalso. exact (Hsend _ _ eq_refl).
  - simpl. unfold step_collector. destruct Hcol as [-> | ->]; reflexivity.
Qed.

Lemma start_open_failure_witness :
  (forall s, reachable FailDemo.env (Demo.machine zeroStatistics) [] s ->
     submitted s = [] /\ wait (mach s) = 0 /\ handled s = [] /\
     idle (workers s) /\
     Execs (Stats (mach s)) = Execs (Stats (Demo.machine zeroStatistics)) /\
     (forall i, step FailDemo.env (TWorker i) s = None) /\
     step FailDemo.env TCollector s = None /\
     (step_main FailDemo.env s = None -> main s = MStartErr FailDemo.err)) /\
  (exists s, reachable FailDemo.env (Demo.machine zeroStatistics) [] s /\
             main s = MStartErr FailDemo.err).
Proof.
  apply (start_open_failure FailDemo.env 2 "words.txt" Demo.no_session
           Demo.find_root Demo.collect).
  - reflexivity.
  - intros st Hst. discriminate Hst.
  - left. reflexivity.
Defined.

(** ** Finalization: [UpdateStats] *)

(** *** [float64] of an unsigned integer *)

Lemma digits2_pos_size p : digits2_pos p = Pos.size p.
Proof. induction p; simpl; congruence. Qed.

Lemma digits2_log2 p : Zpos (digits2_pos p) = Z.log2 (Zpos p) + 1.
Proof.
  rewrite digits2_pos_size. destruct p; simpl; try reflexivity; lia.
Qed.

Lemma shr_1_m mrs : 0 <= shr_m mrs -> shr_m (shr_1 mrs) = shr_m mrs / 2.
Proof.
  destruct mrs as [m r s]. simpl. intros Hm.
  destruct m as [|[p|p|]|]; simpl; try lia; try reflexivity.
  - rewrite Pos2Z.inj_xI. apply Z.div_unique with 1; lia.
  - rewrite Pos2Z.inj_xO. apply Z.div_unique with 0; lia.
Qed.

Lemma iter_shr_1_m n : forall mrs, 0 <= shr_m mrs ->
  shr_m (SpecFloat.iter_pos shr_1 n mrs) = shr_m mrs / 2 ^ Zpos n.
Proof.
  induction n as [n IH|n IH|]; intros mrs Hm; simpl SpecFloat.iter_pos.
  - assert (H1 : 0 <= shr_m (shr_1 mrs)).
    { rewrite shr_1_m by exact Hm. apply Z.div_pos; lia. }
    assert (H2 : 0 <= shr_m (SpecFloat.iter_pos shr_1 n (shr_1 mrs))).
    { rewrite IH by exact H1. apply Z.div_pos; [exact H1 | lia]. }
    rewrite IH by exact H2. rewrite IH by exact H1. rewrite shr_1_m by exact Hm.
    rewrite !Z.div_div by lia. f_equal.
    replace (Zpos n~1) with (1 + Zpos n + Zpos n) by lia.
    rewrite !Z.pow_add_r, Z.pow_1_r by lia. lia.
  - assert (H2 : 0 <= shr_m (SpecFloat.iter_pos shr_1 n mrs)).
    { rewrite IH by exact Hm. apply Z.div_pos; [exact Hm | lia]. }
    rewrite IH by exact H2. rewrite IH by exact Hm.
    rewrite Z.div_div by lia. f_equal.
    replace (Zpos n~0) with (Zpos n + Zpos n) by lia.
    rewrite Z.pow_add_r by lia. lia.
  - rewrite shr_1_m by exact Hm. reflexivity.
Qed.

Lemma round_nearest_even_bounds m l :
  m <= round_nearest_even m l <= m + 1.
Proof.
  unfold round_nearest_even. destruct l as [|[]]; try destruct (Z.even m); lia.
Qed.

Lemma log2_bounds z k : 0 <= k -> 2 ^ k <= z < 2 ^ (k + 1) -> Z.log2 z = k.
Proof. intros Hk H. apply Z.log2_unique; [exact Hk|]. exact H. Qed.



Lemma shr_record_of_loc_m m l : shr_m (shr_record_of_loc m l) = m.
Proof. destruct l as [|[]]; reflexivity. Qed.

Lemma Zdigits2_log2 z : 0 < z -> Zdigits2 z = Z.log2 z + 1.
Proof. destruct z as [|p|p]; try lia. intros _. apply digits2_log2. Qed.

(** What [shr_fexp] does to a positive mantissa. *)
Lemma shr_fexp_m mx ex lx mrs e :
  0 < mx ->
  shr_fexp Float64.prec Float64.emax mx ex lx = (mrs, e) ->
  let n := Z.max (fexp Float64.prec Float64.emax (Z.log2 mx + 1 + ex) - ex) 0 in
  shr_m mrs = mx / 2 ^ n /\ e = ex + n.
Proof.
  intros Hmx. unfold shr_fexp, shr. rewrite (Zdigits2_log2 mx Hmx).
  destruct (fexp Float64.prec Float64.emax (Z.log2 mx + 1 + ex) - ex) as [|q|q] eqn:Hn;
    intros H; injection H as <- <-; simpl Z.max.
  - rewrite shr_record_of_loc_m, Z.div_1_r. lia.
  - rewrite iter_shr_1_m by (rewrite shr_record_of_loc_m; lia).
    rewrite shr_record_of_loc_m. replace (Z.max (Zpos q) 0) with (Zpos q) by lia.
    auto.
  - rewrite shr_record_of_loc_m. replace (Z.max (Zneg q) 0) with 0 by lia.
    rewrite Z.div_1_r. lia.
Qed.

(** Rounding a mantissa of at least 53 bits, at a moderate exponent, gives
    a finite number of the same sign. *)
Lemma binary_round_aux_finite sx mx ex lx :
  2 ^ 52 <= mx < 2 ^ 64 -> -1000 <= ex <= 900 ->
  exists m e, binary_round_aux Float64.prec Float64.emax sx mx ex lx = S754_finite sx m e.
Proof.
  intros Hmx Hex. unfold binary_round_aux.
  assert (Hpos : 0 < mx) by lia.
  pose proof (Z.log2_spec mx Hpos) as Hlog.
  assert (Hl52 : 52 <= Z.log2 mx) by (apply Z.log2_le_pow2; lia).
  assert (Hl64 : Z.log2 mx < 64) by (apply Z.log2_lt_pow2; lia).
  destruct (shr_fexp Float64.prec Float64.emax mx ex lx) as [mrs1 e1] eqn:H1.
  destruct (shr_fexp_m mx ex lx mrs1 e1 Hpos H1) as (Hm1 & He1).
  unfold fexp, emin, Float64.prec, Float64.emax in Hm1, He1.
  set (k := Z.log2 mx - 52) in *.
  replace (Z.max (Z.max (Z.log2 mx + 1 + ex - 53) (3 - 1024 - 53) - ex) 0)
    with k in Hm1, He1 by lia.
  assert (Hb1 : 2 ^ 52 <= shr_m mrs1 < 2 ^ 53).
  { rewrite Hm1.
    assert (H2k : 0 < 2 ^ k) by (apply Z.pow_pos_nonneg; lia).
    assert (Hlo : 2 ^ Z.log2 mx = 2 ^ 52 * 2 ^ k).
    { rewrite <- Z.pow_add_r by lia. f_equal. lia. }
    assert (Hhi : 2 ^ Z.succ (Z.log2 mx) = 2 ^ 53 * 2 ^ k).
    { rewrite <- Z.pow_add_r by lia. f_equal. lia. }
    split.
    - apply Z.div_le_lower_bound; lia.
    - apply Z.div_lt_upper_bound; lia. }
  pose proof (round_nearest_even_bounds (shr_m mrs1) (loc_of_shr_record mrs1)) as Hr.
  set (m1 := round_nearest_even (shr_m mrs1) (loc_of_shr_record mrs1)) in *.
  assert (Hm1pos : 0 < m1) by lia.
  destruct (shr_fexp Float64.prec Float64.emax m1 e1 loc_Exact) as [mrs2 e2] eqn:H2.
  destruct (shr_fexp_m m1 e1 loc_Exact mrs2 e2 Hm1pos H2) as (Hm2 & He2).
  unfold fexp, emin, Float64.prec, Float64.emax in Hm2, He2.
  assert (Hcase : m1 < 2 ^ 53 \/ m1 = 2 ^ 53) by lia.
  assert (Hfin : 2 ^ 52 <= shr_m mrs2 /\ e2 <= 1024 - 53).
  { destruct Hcase as [Hlt | Heq].
    - assert (Hl : Z.log2 m1 = 52) by (apply log2_bounds; lia).
      rewrite Hl in Hm2, He2.
      replace (Z.max (Z.max (52 + 1 + e1 - 53) (3 - 1024 - 53) - e1) 0)
        with 0 in Hm2, He2 by lia.
      rewrite Z.div_1_r in Hm2. lia.
    - assert (Hl : Z.log2 m1 = 53) by (rewrite Heq; reflexivity).
      rewrite Hl in Hm2, He2.
      replace (Z.max (Z.max (53 + 1 + e1 - 53) (3 - 1024 - 53) - e1) 0)
        with 1 in Hm2, He2 by lia.
      rewrite Heq in Hm2. change (2 ^ 53 / 2 ^ 1) with (2 ^ 52) in Hm2. lia. }
  destruct Hfin as (Hm2pos & He2le).
  destruct (shr_m mrs2) as [|q|q]; try lia.
  unfold Float64.prec, Float64.emax. rewrite (proj2 (Z.leb_le e2 (1024 - 53)) He2le). eauto.
Qed.

Lemma iter_xO_pow p q : Zpos (Pos.iter xO p q) = Zpos p * 2 ^ Zpos q.
Proof.
  induction q as [|q IH] using Pos.peano_ind.
  - simpl. lia.
  - rewrite Pos.iter_succ, Pos2Z.inj_xO, IH, Pos2Z.inj_succ, Z.pow_succ_r by lia.
    lia.
Qed.

(** [float64(n)] of a positive [uint64] is a positive finite number. *)
Lemma of_pos_finite p :
  Zpos p < 2 ^ 64 ->
  exists m e, binary_normalize Float64.prec Float64.emax (Zpos p) 0 false = S754_finite false m e.
Proof.
  intros Hp. unfold binary_normalize, binary_round.
  pose proof (digits2_log2 p) as Hd.
  pose proof (Z.log2_spec (Zpos p) ltac:(lia)) as Hlog.
  pose proof (Z.log2_nonneg (Zpos p)) as Hnn.
  assert (Hl64 : Z.log2 (Zpos p) < 64) by (apply Z.log2_lt_pow2; lia).
  rewrite Hd. set (l := Z.log2 (Zpos p)) in *.
  unfold shl_align, fexp, emin, Float64.prec, Float64.emax.
  destruct (Z.max (l + 1 + 0 - 53) (3 - 1024 - 53) - 0) as [|q|q] eqn:Hq.
  - apply binary_round_aux_finite; [|lia].
    assert (l = 52) by lia. subst l.
    replace (Z.succ 52) with 53 in Hlog by lia. rewrite H in Hlog. lia.
  - apply binary_round_aux_finite; [|lia].
    assert (2 ^ 52 <= 2 ^ l) by (apply Z.pow_le_mono_r; lia). lia.
  - apply binary_round_aux_finite; [|lia].
    rewrite iter_xO_pow.
    assert (Hq' : Zpos q = 52 - l) by lia. rewrite Hq'.
    assert (H2k : 0 < 2 ^ (52 - l)) by (apply Z.pow_pos_nonneg; lia).
    assert (Hlo : 2 ^ 52 = 2 ^ l * 2 ^ (52 - l)).
    { rewrite <- Z.pow_add_r by lia. f_equal. lia. }
    assert (Hhi : 2 ^ 53 = 2 ^ Z.succ l * 2 ^ (52 - l)).
    { rewrite <- Z.pow_add_r by lia. f_equal. lia. }
    assert (2 ^ 53 < 2 ^ 64) by reflexivity. nia.
Qed.

Lemma of_Z_pos_finite z :
  0 < z < Uint64.modulus ->
  exists m e, Float64.of_Z z = S754_finite false m e.
Proof.
  intros Hz. destruct z as [|p|p]; try lia.
  apply of_pos_finite. unfold Uint64.modulus in Hz. lia.
Qed.

(** *** Progress without inputs *)

(** C5, as the code has it: with [Inputs == 0], [UpdateStats] still computes
    [Progress] as [(float64(Execs) / float64(Inputs)) * 100.0].  The division
    by zero yields no finite defensive value: [Progress] is NaN when [Execs]
    is 0 and +Inf otherwise. *)
Theorem UpdateStats_zero_inputs {Result World : Type}
    (now : GoTime.Time) (m : @Machine Result World) :
  Inputs (Stats m) = 0 ->
  Uint64.in_range (Execs (Stats m)) ->
  Progress (Stats (UpdateStats now m)) =
    Float64.mul (Float64.div (Float64.of_Z (Execs (Stats m))) (Float64.of_Z 0))
                (Float64.of_Z 100) /\
  Progress (Stats (UpdateStats now m)) =
    (if Execs (Stats m) =? 0 then Float64.NaN else Float64.pos_inf).
Proof.
  intros HI HE. unfold UpdateStats. simpl. rewrite HI. split; [reflexivity|].
  destruct (Execs (Stats m) =? 0) eqn:Hz.
  - apply Z.eqb_eq in Hz. rewrite Hz. reflexivity.
  - apply Z.eqb_neq in Hz. unfold Uint64.in_range in HE.
    destruct (of_Z_pos_finite (Execs (Stats m)) ltac:(lia)) as (mx & ex & ->).
    reflexivity.
Qed.

Lemma UpdateStats_zero_inputs_witness :
  Progress (Stats (UpdateStats 7 (Demo.machine zeroStatistics))) =
    Float64.mul (Float64.div (Float64.of_Z 0) (Float64.of_Z 0)) (Float64.of_Z 100) /\
  Progress (Stats (UpdateStats 7 (Demo.machine zeroStatistics))) = Float64.NaN.
Proof.
  apply (UpdateStats_zero_inputs 7 (Demo.machine zeroStatistics)).
  - reflexivity.
  - unfold Uint64.in_range, Uint64.modulus. simpl. lia.
Defined.

(** C5 fails as stated: finalizing statistics whose [Inputs] is 0 sets
    [Progress] to NaN, the result of 0.0 / 0.0, not to a defensive value. *)
Lemma UpdateStats_no_defensive_progress :
  Inputs (Stats (Demo.machine zeroStatistics)) = 0 /\
  Progress (Stats (UpdateStats 7 (Demo.machine zeroStatistics))) = Float64.NaN /\
  Float64.is_finite
    (Progress (Stats (UpdateStats 7 (Demo.machine zeroStatistics)))) = false.
Proof. repeat split. Qed.

(** ** Machine creation *)

(** C10: [NewMachine] reads [session.Stats] before anything else is known
    about [session]: on a nil session it faults with a nil dereference, and
    it builds a machine for every non-nil session. *)
Theorem NewMachine_nil_session {Result World : Type}
    (env : Env) (c : Z) (f : string)
    (rh : @RunHandler Result) (oh : @ResultHandler Result World) :
  NewMachine env c f None rh oh = inl NilDereference /\
  (forall session,
     (exists m, NewMachine env c f session rh oh = inr m) <-> session <> None).
Proof.
  split; [reflexivity|]. intros [sess|]; split.
  - discriminate.
  - intros _. eexists. reflexivity.
  - intros [m Hm]. discriminate Hm.
  - intros H. contradiction.
Qed.

(** ** The invariant [Execs <= Inputs] *)

(** C8 fails as stated: on a resumed run [Start] resets [Inputs] to 0 and
    counts it up again while [Execs] still holds the snapshot's value.  After
    the five statements that start the goroutines and reset [Inputs], the
    demo machine resumed from two executions has [Inputs = 0 < 2 = Execs]. *)
Lemma execs_exceed_inputs_while_counting :
  exists s,
    reachable Demo.env (Demo.machine Demo.snapshot) [] s /\
    main s = MOpenCount /\
    Execs (Stats (mach s)) = 2 /\ Inputs (Stats (mach s)) = 0 /\
    ~ Execs (Stats (mach s)) <= Inputs (Stats (mach s)).
Proof.
  eexists. split; [exists (replicate 5 TMain); vm_compute; reflexivity|].
  simpl. repeat split. lia.
Qed.

(** C8, as the code has it: on a wordlist that is the same in both passes
    and whose line count fits a [uint64], with a snapshot whose [Execs] does
    not exceed the line count, [Execs <= Inputs] holds in every reachable
    state of a run that is not resumed, and on a resumed run in every
    reachable state from the end of the counting pass on. *)
Theorem execs_le_inputs {Result World : Type}
    (env : Env) (c : Z) (f : string) (sess : Session)
    (rh : @RunHandler Result) (oh : @ResultHandler Result World)
    (w : World) (m : Machine) (lines : list string) :
  NewMachine env c f (Some sess) rh oh = inr m ->
  valid_session sess ->
  prior_execs sess <= Z.of_nat (length lines) ->
  Z.of_nat (length lines) < Uint64.modulus ->
  LineReader env 0 f 0 = inr lines ->
  LineReader env 1 f 0 = inr lines ->
  forall s, reachable env m w s ->
    prior_execs sess <= 0 \/ after_counting (main s) = true ->
    Execs (Stats (mach s)) <= Inputs (Stats (mach s)).
Proof.
  intros Hnew Hv Hk Hlen H0 H1 s Hs Hphase.
  pose proof (NewMachine_wf _ _ _ _ _ _ _ Hnew Hv) as Hwf.
  destruct (NewMachine_fields _ _ _ _ _ _ _ Hnew) as (Hf & _). subst f.
  (* the seed of Execs, and of Inputs on a run that is not resumed *)
  assert (HE0 : 0 <= Execs (Stats m) <= Z.of_nat (length lines) /\
                (prior_execs sess <= 0 ->
                 Execs (Stats m) = 0 /\ Inputs (Stats m) = 0)).
  { destruct (Z_le_gt_dec (prior_execs sess) 0) as [Hle | Hgt].
    - rewrite (NewMachine_fresh _ _ _ _ _ _ _ Hnew Hle). simpl.
      split; [lia | auto].
    - unfold prior_execs in *.
      destruct (SessionStats sess) as [p|] eqn:Hp; [|lia].
      rewrite (NewMachine_resumed _ _ _ _ _ _ _ Hnew p Hp ltac:(lia)).
      split; [lia | intros; lia]. }
  destruct HE0 as (HE0 & Hfresh).
  pose proof (main_inv_reachable env m w Hwf s Hs) as Hinv.
  pose proof (execs_exact_reachable env m w Hwf s Hs) as Hex.
  pose proof (tally_nonneg unexec (workers s) unexec_nonneg) as Hun.
  assert (Hwrap : Uint64.wrap (Z.of_nat (length lines)) = Z.of_nat (length lines)).
  { apply wrap_small. unfold Uint64.in_range. lia. }
  unfold execs_exact in Hex.
  unfold main_inv, pumping, quiet, counted, stats_kept, skipped in Hinv.
  destruct (main s) eqn:Hm; simpl in Hphase; break_hyps;
    try (destruct Hphase as [Hphase | Hphase]; [|discriminate];
         destruct (Hfresh Hphase) as (HE & HI));
    repeat match goal with
    | H : LineReader env 0 _ _ = inr ?l |- _ =>
        lazymatch l with
        | lines => fail
        | _ => rewrite H0 in H; injection H as <-
        end
    | H : LineReader env 1 _ _ = inr ?l |- _ =>
        lazymatch l with
        | lines => fail
        | _ => rewrite H1 in H; injection H as <-
        end
    | H : LineReader env _ _ _ = inl _ |- _ =>
        first [rewrite H0 in H | rewrite H1 in H]; discriminate H
    | H : _ \/ _ |- _ => destruct H; break_hyps
    end;
    rewrite ?Hwrap in *;
    try match goal with
    | H : Inputs _ = Uint64.wrap ?a |- _ =>
        pose proof (wrap_in_range a) as Hwr; unfold Uint64.in_range in Hwr
    end;
    try lia.
  all: match goal with
       | Hd : discarded ?s0 = take _ _, Hl : _ = discarded ?s0 ++ _ |- _ =>
           pose proof (f_equal length Hl) as Hll;
           pose proof (f_equal length Hd) as Hdl;
           rewrite !length_app in Hll; rewrite length_take in Hdl;
           simpl in Hll
       end; lia.
Qed.

Lemma execs_le_inputs_witness :
  Execs (Stats (mach (demo_state Demo.snapshot resumed_demo_run))) <=
  Inputs (Stats (mach (demo_state Demo.snapshot resumed_demo_run))).
Proof.
  apply (execs_le_inputs Demo.env 2 "words.txt" Demo.session
           Demo.find_root Demo.collect [] (Demo.machine Demo.snapshot)
           Demo.words).
  - reflexivity.
  - demo_side.
  - demo_side.
  - demo_side.
  - reflexivity.
  - reflexivity.
  - exists resumed_demo_run. vm_compute. reflexivity.
  - right. reflexivity.
Defined.

(** ** What [Start] writes to the statistics *)

(** C9: whatever [Inputs] the snapshot carried, [Start] sets it to 0 before
    the counting pass and, once the pass is over, to the number of lines of
    the file.  On a resumed run the machine starts from the snapshot, and
    [Start] (the field) keeps the snapshot's time in every state; [Stop],
    [Total], [Eps] and [Progress] are the snapshot's until [UpdateStats];
    [Execs] and [Results] continue from the snapshot's values; at the end
    [Total] is measured from the snapshot's start time and [Eps] is computed
    from the accumulated [Execs] over that [Total].  These states are
    reached: every call of [Start] gets to the first [LineReader] call with
    [Inputs] reset to 0; when the file opens, it gets to the second call with
    [Inputs] recounted; and when it opens twice, [Wait] returns with every
    worker idle. *)
Theorem start_recounts_inputs_and_keeps_snapshot {Result World : Type}
    (env : Env) (c : Z) (f : string) (sess : Session)
    (rh : @RunHandler Result) (oh : @ResultHandler Result World)
    (w : World) (m : Machine) :
  NewMachine env c f (Some sess) rh oh = inr m ->
  valid_session sess ->
  (forall s, reachable env m w s ->
     (main s = MOpenCount -> Inputs (Stats (mach s)) = 0) /\
     (forall lines0, LineReader env 0 f 0 = inr lines0 ->
        after_counting (main s) = true ->
        Inputs (Stats (mach s)) = Uint64.wrap (Z.of_nat (length lines0)))) /\
  (forall p, SessionStats sess = Some p -> 0 < Execs p ->
     Stats m = p /\
     forall s, reachable env m w s ->
       Start (Stats (mach s)) = Start p /\
       (main s <> MFinished ->
          Stop (Stats (mach s)) = Stop p /\ Total (Stats (mach s)) = Total p /\
          Eps (Stats (mach s)) = Eps p /\
          Progress (Stats (mach s)) = Progress p) /\
       (idle (workers s) ->
          Execs (Stats (mach s)) =
            Uint64.wrap (Execs p + Z.of_nat (length (submitted s))) /\
          Results (Stats (mach s)) =
            Uint64.wrap (Results p +
                         Z.of_nat (length (omap rh (submitted s))))) /\
       (main s = MFinished ->
          Stop (Stats (mach s)) = Now env 1 /\
          Total (Stats (mach s)) = GoTime.Sub (Now env 1) (Start p) /\
          Eps (Stats (mach s)) =
            Float64.div (Float64.of_Z (Execs (Stats (mach s))))
                        (GoTime.Seconds (Total (Stats (mach s)))))) /\
  (exists s, reachable env m w s /\ main s = MOpenCount /\
             Inputs (Stats (mach s)) = 0) /\
  (forall lines0, LineReader env 0 f 0 = inr lines0 ->
     exists s, reachable env m w s /\ main s = MOpenRun /\
       Inputs (Stats (mach s)) = Uint64.wrap (Z.of_nat (length lines0))) /\
  (forall lines0 lines1,
     LineReader env 0 f 0 = inr lines0 -> LineReader env 1 f 0 = inr lines1 ->
     valid_platform env c ->
     exists s, reachable env m w s /\ main s = MFinished /\
       idle (workers s)).
Proof.
  intros Hnew Hv.
  pose proof (NewMachine_wf _ _ _ _ _ _ _ Hnew Hv) as Hwf.
  pose proof (NewMachine_consumers_pos _ _ _ _ _ _ _ Hnew) as Hpos.
  destruct (NewMachine_fields _ _ _ _ _ _ _ Hnew) as (Hf & Hrh & _). subst f.
  assert (HA : forall s, reachable env m w s ->
     (main s = MOpenCount -> Inputs (Stats (mach s)) = 0) /\
     (forall lines0, LineReader env 0 (filename m) 0 = inr lines0 ->
        after_counting (main s) = true ->
        Inputs (Stats (mach s)) = Uint64.wrap (Z.of_nat (length lines0)))).
  { intros s Hs. pose proof (main_inv_reachable env m w Hwf s Hs) as Hinv.
    unfold main_inv, pumping, counted in Hinv. split.
    + intros Hm. rewrite Hm in Hinv. break_hyps. assumption.
    + intros lines0 H0 Hafter.
      destruct (main s); try discriminate Hafter; break_hyps; congruence. }
  split; [exact HA|]. split; [|split; [|split]].
  - intros p Hp Hk.
    pose proof (NewMachine_resumed _ _ _ _ _ _ _ Hnew p Hp Hk) as Hst.
    split; [exact Hst|]. intros s Hs.
    pose proof (main_inv_reachable env m w Hwf s Hs) as Hinv.
    assert (Hstart : start_time env m = Start p).
    { unfold start_time. rewrite Hst, (proj2 (Z.ltb_lt 0 (Execs p)) Hk).
      reflexivity. }
    split; [|split; [|split]].
    + unfold main_inv, quiet, stats_kept, stats_running, stats_final in Hinv.
      rewrite Hstart, Hst in Hinv.
      destruct (main s); break_hyps; congruence.
    + intros Hnf.
      unfold main_inv, quiet, stats_kept, stats_running in Hinv.
      rewrite Hst in Hinv.
      destruct (main s); break_hyps; try contradiction; auto.
    + intros Hidle.
      destruct (idle_counters env m w Hwf s Hs Hidle) as (HE & HR & _).
      rewrite Hst in HE, HR. rewrite Hrh in HR. auto.
    + intros Hm. unfold main_inv, stats_final in Hinv.
      rewrite Hm, Hstart in Hinv. break_hyps.
      repeat split; congruence.
  - destruct (reach_open_count env m w Hwf) as (s & Hs & Hm).
    exists s. split; [exact Hs|]. split; [exact Hm|].
    apply (HA s Hs), Hm.
  - intros lines0 H0.
    destruct (reach_open_run env m w Hwf lines0 H0) as (s & Hs & Hm).
    exists s. split; [exact Hs|]. split; [exact Hm|].
    apply (HA s Hs); [exact H0|]. rewrite Hm. reflexivity.
  - intros lines0 lines1 H0 H1 Hplat.
    destruct (run_completes env m w Hwf lines0 lines1 H0 H1 (Hpos Hplat))
      as (s & Hs & Hm & _).
    exists s. split; [exact Hs|]. split; [exact Hm|].
    destruct (finished_outcome env m w Hwf s Hs Hm)
      as (l0 & l1 & _ & _ & _ & _ & _ & Hidle & _).
    exact Hidle.
Qed.

Lemma start_recounts_inputs_and_keeps_snapshot_witness :
  (forall s, reachable Demo.env (Demo.machine Demo.snapshot) [] s ->
     (main s = MOpenCount -> Inputs (Stats (mach s)) = 0) /\
     (forall lines0, LineReader Demo.env 0 "words.txt" 0 = inr lines0 ->
        after_counting (main s) = true ->
        Inputs (Stats (mach s)) = Uint64.wrap (Z.of_nat (length lines0)))) /\
  (forall p, SessionStats Demo.session = Some p -> 0 < Execs p ->
     Stats (Demo.machine Demo.snapshot) = p /\
     forall s, reachable Demo.env (Demo.machine Demo.snapshot) [] s ->
       Start (Stats (mach s)) = Start p /\
       (main s <> MFinished ->
          Stop (Stats (mach s)) = Stop p /\ Total (Stats (mach s)) = Total p /\
          Eps (Stats (mach s)) = Eps p /\
          Progress (Stats (mach s)) = Progress p) /\
       (idle (workers s) ->
          Execs (Stats (mach s)) =
            Uint64.wrap (Execs p + Z.of_nat (length (submitted s))) /\
          Results (Stats (mach s)) =
            Uint64.wrap (Results p +
                         Z.of_nat (length (omap Demo.find_root (submitted s))))) /\
       (main s = MFinished ->
          Stop (Stats (mach s)) = Now Demo.env 1 /\
          Total (Stats (mach s)) = GoTime.Sub (Now Demo.env 1) (Start p) /\
          Eps (Stats (mach s)) =
            Float64.div (Float64.of_Z (Execs (Stats (mach s))))
                        (GoTime.Seconds (Total (Stats (mach s)))))) /\
  (exists s, reachable Demo.env (Demo.machine Demo.snapshot) [] s /\
             main s = MOpenCount /\ Inputs (Stats (mach s)) = 0) /\
  (exists s, reachable Demo.env (Demo.machine Demo.snapshot) [] s /\
             main s = MOpenRun /\
             Inputs (Stats (mach s)) =
               Uint64.wrap (Z.of_nat (length Demo.words))) /\
  (exists s, reachable Demo.env (Demo.machine Demo.snapshot) [] s /\
             main s = MFinished /\ idle (workers s)).
Proof.
  destruct (start_recounts_inputs_and_keeps_snapshot Demo.env 2 "words.txt"
              Demo.session Demo.find_root Demo.collect []
              (Demo.machine Demo.snapshot))
    as (HA & HB & HC & HD & HE).
  - reflexivity.
  - demo_side.
  - split; [exact HA|]. split; [exact HB|]. split; [exact HC|]. split.
    + apply (HD Demo.words). reflexivity.
    + apply (HE Demo.words Demo.words); [reflexivity | reflexivity |].
      demo_side.
Defined.

(** ** When the pending counter is decremented *)

Section Completion.
Context {Result World : Type}.

(** C3 as the claim states it: a worker that is about to call
    [m.wait.Done()] for a job with result [r] finds the handler call for that
    result completed. *)
Definition done_after_handler (s : @State Result World) : Prop :=
  forall i j r,
    workers s !! i = Some (WDone j (Some r)) -> (j, r) ∈ handled s.

(** What the code ensures: the result has left the Result Queue; its handler
    call has returned or is the one the collector is about to make. *)
Definition done_after_dequeue (s : @State Result World) : Prop :=
  forall i j r,
    workers s !! i = Some (WDone j (Some r)) ->
    (j, r) ∈ handled s \/ collector s = Some (CHandle j r).

End Completion.

(** C3 fails as stated: [inputConsumer] calls [m.wait.Done()] as soon as
    its send on [m.output] is received, while [outputConsumer] has yet to run
    the handler.  On the demo wordlist the worker decrements the counter for
    the job "root" while the handler call for "root" is still pending, and
    [Wait] can return before that call is made. *)
Lemma done_before_handler_returns :
  exists s s' s'',
    reachable Demo.env (Demo.machine zeroStatistics) [] s /\
    workers s !! 0%nat = Some (WDone 1 (Some "root"%string)) /\
    collector s = Some (CHandle 1 "root"%string) /\ handled s = [] /\
    ~ done_after_handler s /\
    step Demo.env (TWorker 0) s = Some s' /\
    wait (mach s') = wait (mach s) - 1 /\
    collector s' = Some (CHandle 1 "root"%string) /\ handled s' = [] /\
    run Demo.env (job_schedule false ++ [TMain; TMain; TMain]) s' = Some s'' /\
    main s'' = MFinished /\
    collector s'' = Some (CHandle 1 "root"%string) /\ handled s'' = [].
Proof.
  eexists. eexists. eexists.
  split; [exists root_handed_over; vm_compute; reflexivity|].
  split; [reflexivity|]. split; [reflexivity|]. split; [reflexivity|].
  split.
  { intros H. specialize (H 0%nat 1%nat "root"%string eq_refl).
    simpl in H. inversion H. }
  split; [vm_compute; reflexivity|].
  split; [reflexivity|]. split; [reflexivity|]. split; [reflexivity|].
  split; [vm_compute; reflexivity|].
  repeat split.
Qed.

(** C3, as the code has it: the pending counter is decremented for a job
    with a result only after the collector has received that result (its
    handler call has returned or is pending); the job is a submitted line on
    which the run handler returned that result; and the counter always
    equals the number of jobs submitted and not yet done. *)
Theorem done_after_result_dequeued {Result World : Type}
    (env : Env) (c : Z) (f : string) (sess : Session)
    (rh : @RunHandler Result) (oh : @ResultHandler Result World)
    (w : World) (m : Machine) :
  NewMachine env c f (Some sess) rh oh = inr m ->
  valid_session sess ->
  forall s, reachable env m w s ->
    done_after_dequeue s /\
    (forall i j r, workers s !! i = Some (WDone j (Some r)) ->
       exists l, submitted s !! j = Some l /\ rh l = Some r) /\
    wait (mach s) = tally busy (workers s) + sending_now s.
Proof.
  intros Hnew Hv s Hs.
  pose proof (NewMachine_wf _ _ _ _ _ _ _ Hnew Hv) as Hwf.
  destruct (NewMachine_fields _ _ _ _ _ _ _ Hnew) as (_ & Hrh & _).
  destruct (jobs_inv_reachable env m w Hwf s Hs) as (Hws & _).
  destruct (counters_inv_reachable env m w Hwf s Hs) as (Hwait & _).
  split; [|split; [|exact Hwait]].
  - intros i j r Hi.
    pose proof (Forall_lookup_1 _ _ _ _ Hws Hi) as (_ & Hin).
    unfold dequeued, in_progress in Hin. apply elem_of_app in Hin.
    destruct Hin as [Hin | Hin]; [left; exact Hin | right].
    destruct (collector s) as [[|j' r']|]; try (inversion Hin; fail).
    apply list_elem_of_singleton in Hin. congruence.
  - intros i j r Hi.
    pose proof (Forall_lookup_1 _ _ _ _ Hws Hi) as ((l & Hl & Hr) & _).
    exists l. rewrite <- Hrh. auto.
Qed.

Lemma done_after_result_dequeued_witness :
  done_after_dequeue (demo_state zeroStatistics root_handed_over) /\
  (forall i j r,
     workers (demo_state zeroStatistics root_handed_over) !! i =
       Some (WDone j (Some r)) ->
     exists l,
       submitted (demo_state zeroStatistics root_handed_over) !! j = Some l /\
       Demo.find_root l = Some r) /\
  wait (mach (demo_state zeroStatistics root_handed_over)) =
    tally busy (workers (demo_state zeroStatistics root_handed_over)) +
    sending_now (demo_state zeroStatistics root_handed_over).
Proof.
  apply (done_after_result_dequeued Demo.env 2 "words.txt" Demo.no_session
           Demo.find_root Demo.collect [] (Demo.machine zeroStatistics)).
  - reflexivity.
  - intros st Hst. discriminate Hst.
  - exists root_handed_over. vm_compute. reflexivity.
Defined.

(** ** Results *)




(** ** The order of the phases of [Start] *)

(** The states of the orchestrator.  [Created] lasts while [Start] launches
    the goroutines; [Failed] is [Start] having returned an error. *)
Inductive Phase :=
| Created | Counting | Running | Draining | Finalized | Failed.

Definition phase (p : Main) : Phase :=
  match p with
  | MSpawn _ | MSpawnOutput => Created
  | MResetInputs | MOpenCount | MCount _ => Counting
  | MOpenRun | MCheckResume _ | MSkip _ _ | MSubmit _ | MSend _ _ => Running
  | MWait => Draining
  | MUpdateStats | MFinished => Finalized
  | MStartErr _ => Failed
  end.






(** * Further properties of the run *)

Section Liveness.
Context {Result World : Type}.
Local Abbreviation Machine := (@Machine Result World).
Local Abbreviation State := (@State Result World).
Local Abbreviation Worker := (@Worker Result).

Variable env : Env.
Variable m0 : Machine.
Variable w0 : World.
Hypothesis Hwf : wf_machine m0.

(** The run is over: [Wait] has returned and the collector has handled
    every result it received. *)
Definition complete (s : State) : Prop :=
  main s = MFinished /\ collector s = Some CRecv.

(** [Start] has returned an error. *)
Definition failed (s : State) : Prop := exists err, main s = MStartErr err.

(** Some goroutine can execute its next statement. *)
Definition can_move (s : State) : Prop :=
  exists t s', step env t s = Some s'.

Lemma busy_worker_exists (ws : list Worker) :
  0 < tally busy ws -> exists i w, ws !! i = Some w /\ w <> WRecv.
Proof.
  induction ws as [|v ws IH]; simpl; [lia|]. intros H.
  destruct v; try (exists 0%nat; eexists; split; [reflexivity | discriminate]).
  destruct IH as (i & w & Hi & Hw); [simpl in H; lia|].
  exists (S i), w. auto.
Qed.

(** A worker that holds a job is never stuck for good: it can move, or the
    collector it waits for can. *)
Lemma busy_worker_moves (s : State) i w :
  workers s !! i = Some w -> w <> WRecv -> collector s <> None -> can_move s.
Proof.
  intros Hi Hw Hcol. destruct w as [|j l|j l|j r|j r|j r]; try contradiction.
  - exists (TWorker i). eexists. simpl. unfold step_worker. rewrite Hi. reflexivity.
  - destruct (run_handler (mach s) l) as [r|] eqn:Hr;
      exists (TWorker i); eexists; simpl; unfold step_worker;
      rewrite Hi, Hr; reflexivity.
  - exists (TWorker i). eexists. simpl. unfold step_worker. rewrite Hi. reflexivity.
  - destruct (collector s) as [[|j' r']|] eqn:Hc; [| |contradiction].
    + exists (TWorker i). eexists. simpl. unfold step_worker.
      rewrite Hi, Hc. reflexivity.
    + exists TCollector. eexists. simpl. unfold step_collector.
      rewrite Hc. reflexivity.
  - exists (TWorker i). eexists. simpl. unfold step_worker. rewrite Hi. reflexivity.
Qed.

(** No deadlock: with at least one worker, in every reachable state some
    goroutine can move, unless the run is complete or [Start] failed. *)
Lemma run_never_deadlocks (s : State) :
  0 < consumers m0 -> reachable env m0 w0 s ->
  can_move s \/ complete s \/ failed s.
Proof.
  intros Hpos Hs.
  pose proof (main_inv_reachable env m0 w0 Hwf s Hs) as Hinv.
  destruct (counters_inv_reachable env m0 w0 Hwf s Hs) as (Hwait & _).
  unfold sending_now in Hwait.
  assert (Hmain : forall s', step_main env s = Some s' -> can_move s).
  { intros s' H. exists TMain, s'. exact H. }
  unfold main_inv, pumping, started in Hinv.
  destruct (main s) eqn:Hm;
    try (left; unfold step_main in Hmain; rewrite Hm in Hmain;
         repeat case_match; eapply Hmain; reflexivity).
  - (* blocked on m.input <- input *)
    left. destruct Hinv as (((Hlen & Hcol) & _) & _).
    destruct (Z_le_gt_dec (tally busy (workers s)) 0) as [Hz | Hb].
    + pose proof (busy_nonneg (workers s)).
      assert (Hidle : idle (workers s)) by (apply busy_zero_idle; lia).
      destruct (workers s) as [|v ws] eqn:Hws; [simpl in Hlen; lia|].
      assert (v = WRecv) by (inversion Hidle; assumption). subst v.
      exists (TWorker 0). eexists. simpl. unfold step_worker.
      rewrite Hws, Hm. reflexivity.
    + destruct (busy_worker_exists (workers s)) as (i & v & Hi & Hv); [lia|].
      exact (busy_worker_moves s i v Hi Hv Hcol).
  - right. right. eexists. exact Hm.
  - (* blocked on m.wait.Wait() *)
    left. destruct Hinv as (((Hlen & Hcol) & _) & _).
    destruct (Z.eq_dec (wait (mach s)) 0) as [Hz | Hnz].
    + exists TMain. eexists. simpl. unfold step_main. rewrite Hm, Hz. reflexivity.
    + pose proof (busy_nonneg (workers s)).
      destruct (busy_worker_exists (workers s)) as (i & v & Hi & Hv); [lia|].
      exact (busy_worker_moves s i v Hi Hv Hcol).
  - (* Wait has returned *)
    destruct Hinv as (((Hlen & Hcol) & _) & _).
    destruct (collector s) as [[|j r]|] eqn:Hc; [| |contradiction].
    + right. left. split; assumption.
    + left. exists TCollector. eexists. simpl. unfold step_collector.
      rewrite Hc. reflexivity.
Qed.

(** *** Every run is finite *)

(** The statements a worker still has to execute for the job it holds. *)
Definition worker_fuel (w : Worker) : Z :=
  match w with
  | WRecv => 0
  | WExec _ _ => 6
  | WRun _ _ => 5
  | WCount _ _ => 4
  | WSend _ _ => 3
  | WDone _ _ => 1
  end.

Definition collector_fuel (c : option (@Collector Result)) : Z :=
  match c with
  | Some (CHandle _ _) => 1
  | _ => 0
  end.

(** The number of lines a [LineReader] call yields. *)
Definition line_count (r : Error + list string) : Z :=
  match r with
  | inr lines => Z.of_nat (length lines)
  | inl _ => 0
  end.

(** A bound on the statements still to come once the caller stands at [p],
    those of the jobs not yet submitted included. *)
Definition main_fuel (p : Main) : Z :=
  let n0 := line_count (LineReader env 0 (filename m0) 0) in
  let n1 := line_count (LineReader env 1 (filename m0) 0) in
  match p with
  | MFinished | MStartErr _ => 0
  | MUpdateStats => 1
  | MWait => 2
  | MSubmit lines => 3 + 8 * Z.of_nat (length lines)
  | MSend _ lines => 10 + 8 * Z.of_nat (length lines)
  | MSkip _ lines => 4 + 9 * Z.of_nat (length lines)
  | MCheckResume lines => 5 + 9 * Z.of_nat (length lines)
  | MOpenRun => 6 + 9 * n1
  | MCount lines => 7 + 9 * n1 + Z.of_nat (length lines)
  | MOpenCount => 8 + 9 * n1 + n0
  | MResetInputs => 9 + 9 * n1 + n0
  | MSpawnOutput => 10 + 9 * n1 + n0
  | MSpawn i => 11 + 9 * n1 + n0 + (consumers m0 - i)
  end.

Definition fuel (s : State) : Z :=
  main_fuel (main s) + tally worker_fuel (workers s) +
  collector_fuel (collector s).

Lemma worker_fuel_nonneg (w : Worker) : 0 <= worker_fuel w.
Proof. destruct w; simpl; lia. Qed.

Lemma line_count_nonneg r : 0 <= line_count r.
Proof. destruct r; simpl; lia. Qed.

Lemma fuel_nonneg (s : State) : reachable env m0 w0 s -> 0 <= fuel s.
Proof.
  intros Hs. pose proof (main_inv_reachable env m0 w0 Hwf s Hs) as Hinv.
  pose proof (tally_nonneg worker_fuel (workers s) worker_fuel_nonneg).
  pose proof (line_count_nonneg (LineReader env 0 (filename m0) 0)).
  pose proof (line_count_nonneg (LineReader env 1 (filename m0) 0)).
  unfold fuel, main_fuel, main_inv in *.
  destruct (collector s) as [[|j r]|]; destruct (main s); simpl; try lia.
Qed.

(** Every statement executed brings the end of the run closer. *)
Lemma step_burns_fuel (s s' : State) t :
  reachable env m0 w0 s -> step env t s = Some s' -> fuel s' < fuel s.
Proof.
  intros Hs H.
  destruct (same_config_reachable env m0 w0 s Hs) as (Hcons & Hfile & _).
  pose proof (main_inv_reachable env m0 w0 Hwf s Hs) as Hinv.
  destruct Hwf as (_ & Hc0 & _). unfold Uint64.in_range in Hc0.
  pose proof (line_count_nonneg (LineReader env 0 (filename m0) 0)) as Hn0.
  pose proof (line_count_nonneg (LineReader env 1 (filename m0) 0)) as Hn1.
  unfold fuel.
  destruct t as [|i|]; simpl in H.
  - unfold step_main in H. rewrite Hcons, Hfile in H.
    unfold main_inv in Hinv.
    destruct (main s) eqn:Hm; repeat case_match; simplify_eq; simpl;
      rewrite ?tally_app, ?length_cons; simpl;
      repeat match goal with
      | Hl : LineReader _ _ _ _ = _ |- _ => rewrite Hl; clear Hl
      | Hb : (_ <? _) = true |- _ => apply Z.ltb_lt in Hb
      end;
      simpl; break_hyps;
      repeat match goal with
      | Hl : LineReader _ _ _ _ = _ |- _ => rewrite Hl in *
      | Hc : collector _ = _ |- _ => rewrite Hc
      end;
      simpl in *;
      try rewrite add_small by lia; try lia.
  - unfold step_worker in H.
    repeat case_match; simplify_eq; simpl;
      repeat match goal with
      | Hm : main _ = _ |- _ => rewrite Hm; clear Hm
      | Hc : collector _ = _ |- _ => rewrite Hc; clear Hc
      | Hi : workers _ !! _ = Some _ |- _ =>
          rewrite !(tally_insert _ _ _ _ _ Hi); clear Hi
      end; simpl; lia.
  - unfold step_collector in H.
    repeat case_match; simplify_eq; simpl;
      repeat match goal with
      | Hc : collector _ = _ |- _ => rewrite Hc; clear Hc
      end; simpl; lia.
Qed.

(** A run cannot be longer than the fuel of its first state. *)
Lemma run_length_bounded sched : forall (s s' : State),
  reachable env m0 w0 s -> run env sched s = Some s' ->
  Z.of_nat (length sched) <= fuel s - fuel s'.
Proof.
  induction sched as [|t sched IH]; intros s s' Hs H; simpl in H.
  - injection H as <-. simpl. lia.
  - destruct (step env t s) as [s1|] eqn:H1; [|discriminate].
    pose proof (step_burns_fuel s s1 t Hs H1).
    pose proof (IH s1 s' (reachable_step env m0 w0 s t s1 Hs H1) H).
    rewrite length_cons. lia.
Qed.

End Liveness.

Section Accounting.
Context {Result World : Type}.
Local Abbreviation Machine := (@Machine Result World).
Local Abbreviation State := (@State Result World).
Local Abbreviation Worker := (@Worker Result).

Variable env : Env.
Variable m0 : Machine.
Variable w0 : World.
Hypothesis Hwf : wf_machine m0.

Ltac step_cases H :=
  match type of H with
  | step _ ?t _ = Some _ =>
      destruct t; simpl in H;
      unfold step_main, step_worker, step_collector in H;
      repeat case_match; simplify_eq
  end.

(** A worker whose job has not reached the collector: the job is still to
    be executed, being executed, or had no result. *)
Definition undelivered (w : Worker) : Z :=
  match w with
  | WRecv | WDone _ (Some _) => 0
  | _ => 1
  end.

Lemma tally_le (f g : Worker -> Z) ws :
  (forall w, f w <= g w) -> tally f ws <= tally g ws.
Proof.
  intros Hfg. induction ws as [|w ws IH]; simpl; [lia|].
  pose proof (Hfg w). lia.
Qed.

Lemma tally_add (f g : Worker -> Z) ws :
  tally (fun w => f w + g w) ws = tally f ws + tally g ws.
Proof. induction ws as [|w ws IH]; simpl; lia. Qed.

Lemma busy_le_length (ws : list Worker) : tally busy ws <= Z.of_nat (length ws).
Proof. induction ws as [|[] ws IH]; simpl; lia. Qed.

(** The results that left the queue and the jobs still held by workers are
    distinct submitted jobs. *)
Definition delivery_inv (s : State) : Prop :=
  Z.of_nat (length (dequeued s)) + tally undelivered (workers s)
    <= Z.of_nat (length (submitted s)).

Lemma delivery_inv_reachable s : reachable env m0 w0 s -> delivery_inv s.
Proof.
  apply reachable_invariant.
  - unfold delivery_inv. simpl. lia.
  - intros s1 t s2 Hr1 IH H.
    destruct (counters_inv_reachable env m0 w0 Hwf s1 Hr1)
      as (_ & _ & _ & _ & _ & Hcol).
    step_cases H; unfold delivery_inv, dequeued, in_progress in *; simpl in *;
      repeat match goal with
      | Hm : main _ = _ |- _ => rewrite Hm in *; clear Hm
      | Hc : collector _ = _ |- _ => rewrite Hc in *; clear Hc
      | Hi : workers _ !! _ = Some _ |- _ =>
          rewrite !(tally_insert _ _ _ _ _ Hi); clear Hi
      end;
      rewrite ?tally_app, ?length_app in *; simpl in *; try lia.
    all: repeat case_match; simpl in *; lia.
Qed.

(** The handler's world is what the handled results, in the order they were
    handled, made of the initial one. *)
Definition world_inv (s : State) : Prop :=
  world s = fold_left (fun w jr => res_handler m0 jr.2 w) (handled s) w0.

Lemma world_inv_reachable s : reachable env m0 w0 s -> world_inv s.
Proof.
  apply reachable_invariant.
  - reflexivity.
  - intros s1 t s2 Hr1 IH H.
    destruct (same_config_reachable env m0 w0 s1 Hr1) as (_ & _ & _ & Hoh).
    step_cases H; unfold world_inv in *; simpl in *; try exact IH.
    rewrite fold_left_app. simpl. rewrite <- IH, Hoh. reflexivity.
Qed.

(** The lines of the second read that were submitted. *)
Lemma submitted_bounded s :
  reachable env m0 w0 s ->
  Z.of_nat (length (submitted s))
    <= line_count (LineReader env 1 (filename m0) 0).
Proof.
  intros Hs. pose proof (main_inv_reachable env m0 w0 Hwf s Hs) as Hinv.
  pose proof (line_count_nonneg (LineReader env 1 (filename m0) 0)) as Hn.
  unfold main_inv, pumping, quiet in Hinv.
  destruct (main s); break_hyps;
    repeat match goal with
    | Hsub : submitted _ = [] |- _ => rewrite Hsub; simpl; lia
    | Hl : LineReader env 1 _ _ = inr _ |- _ => rewrite Hl; clear Hl
    end;
    simpl.
  all: match goal with
       | Hl : _ = discarded _ ++ submitted _ ++ _ |- _ =>
           pose proof (f_equal length Hl) as Hlen;
           rewrite !length_app in Hlen; lia
       end.
Qed.

End Accounting.

(** ** The worker pool and the pending counter *)

(** [NewMachine] fixes the number of workers: twice the number of CPUs when
    the caller asks for none, the number asked for otherwise, and at least
    one.  [Start] never runs more workers than that, and from the end of its
    spawn loop on exactly that many, with the collector.  The WaitGroup
    counter stays between 0 and that number plus one (the job the caller is
    handing over), and it is at least 1 whenever a worker is about to call
    [m.wait.Done()]: [Done] never faults on a negative counter. *)
Theorem pool_size_and_pending_bounds {Result World : Type}
    (env : Env) (c : Z) (f : string) (sess : Session)
    (rh : @RunHandler Result) (oh : @ResultHandler Result World)
    (w : World) (m : Machine) :
  NewMachine env c f (Some sess) rh oh = inr m ->
  valid_session sess ->
  valid_platform env c ->
  consumers m = (if c <=? 0 then NumCPU env * 2 else c) /\
  0 < consumers m /\
  forall s, reachable env m w s ->
    Z.of_nat (length (workers s)) <= consumers m /\
    (phase (main s) <> Created ->
       Z.of_nat (length (workers s)) = consumers m /\ collector s <> None) /\
    0 <= wait (mach s) <= consumers m + 1 /\
    (forall i j r, workers s !! i = Some (WDone j r) -> 1 <= wait (mach s)).
Proof.
  intros Hnew Hv Hplat.
  pose proof (NewMachine_wf _ _ _ _ _ _ _ Hnew Hv) as Hwf.
  pose proof (NewMachine_consumers_pos _ _ _ _ _ _ _ Hnew Hplat) as Hpos.
  destruct (NewMachine_fields _ _ _ _ _ _ _ Hnew) as (_ & _ & _ & _ & Hc).
  split; [|split; [exact Hpos|]].
  - rewrite Hc. destruct Hplat as (Hcpu & Hcpu2 & Hc63).
    unfold Uint64.wrap, Uint64.modulus.
    destruct (c <=? 0) eqn:Hle.
    + apply Z.mod_small. lia.
    + apply Z.leb_gt in Hle. apply Z.mod_small. lia.
  - intros s Hs.
    pose proof (main_inv_reachable env m w Hwf s Hs) as Hinv.
    destruct (counters_inv_reachable env m w Hwf s Hs) as (Hwait & _).
    pose proof (busy_nonneg (workers s)) as Hb0.
    pose proof (busy_le_length (workers s)) as Hb1.
    assert (Hlen : Z.of_nat (length (workers s)) <= consumers m /\
                   (phase (main s) <> Created ->
                    Z.of_nat (length (workers s)) = consumers m /\
                    collector s <> None)).
    { unfold main_inv, pumping, started in Hinv.
      destruct (main s); simpl; break_hyps; split;
        try lia; intros Hph; try contradiction; split; try lia; congruence. }
    destruct Hlen as (Hle & Hafter).
    split; [exact Hle|]. split; [exact Hafter|]. split.
    + unfold sending_now in Hwait. destruct (main s); lia.
    + intros i j r Hi.
      exact (pending_positive_at_done env m w Hwf s i j r Hs Hi).
Qed.

Lemma pool_size_and_pending_bounds_witness :
  consumers (Demo.machine zeroStatistics) = (if 2 <=? 0 then NumCPU Demo.env * 2 else 2) /\
  0 < consumers (Demo.machine zeroStatistics) /\
  forall s, reachable Demo.env (Demo.machine zeroStatistics) [] s ->
    Z.of_nat (length (workers s)) <= consumers (Demo.machine zeroStatistics) /\
    (phase (main s) <> Created ->
       Z.of_nat (length (workers s)) = consumers (Demo.machine zeroStatistics) /\
       collector s <> None) /\
    0 <= wait (mach s) <= consumers (Demo.machine zeroStatistics) + 1 /\
    (forall i j r, workers s !! i = Some (WDone j r) -> 1 <= wait (mach s)).
Proof.
  apply (pool_size_and_pending_bounds Demo.env 2 "words.txt" Demo.no_session
           Demo.find_root Demo.collect).
  - reflexivity.
  - intros st Hst. discriminate Hst.
  - demo_side.
Defined.

(** ** Results never outnumber executions *)

(** A worker counts a result only after it has counted the execution that
    produced it: when the snapshot has no more results than executions and
    the counters cannot overflow on this wordlist, [Results <= Execs] in
    every reachable state. *)
Theorem results_never_exceed_execs {Result World : Type}
    (env : Env) (c : Z) (f : string) (sess : Session)
    (rh : @RunHandler Result) (oh : @ResultHandler Result World)
    (w : World) (m : Machine) :
  NewMachine env c f (Some sess) rh oh = inr m ->
  valid_session sess ->
  (forall p, SessionStats sess = Some p -> Results p <= Execs p) ->
  Z.max 0 (prior_execs sess) + line_count (LineReader env 1 f 0)
    < Uint64.modulus ->
  forall s, reachable env m w s ->
    Results (Stats (mach s)) <= Execs (Stats (mach s)).
Proof.
  intros Hnew Hv Hle Hbound s Hs.
  pose proof (NewMachine_wf _ _ _ _ _ _ _ Hnew Hv) as Hwf.
  destruct (NewMachine_fields _ _ _ _ _ _ _ Hnew) as (Hf & _). subst f.
  assert (H0 : Execs (Stats m) = Z.max 0 (prior_execs sess) /\
               Results (Stats m) <= Execs (Stats m)).
  { destruct (Z_le_gt_dec (prior_execs sess) 0) as [Hk | Hk].
    - rewrite (NewMachine_fresh _ _ _ _ _ _ _ Hnew Hk). simpl. lia.
    - unfold prior_execs in *.
      destruct (SessionStats sess) as [p|] eqn:Hp; [|lia].
      rewrite (NewMachine_resumed _ _ _ _ _ _ _ Hnew p Hp ltac:(lia)).
      pose proof (Hle p eq_refl). lia. }
  destruct H0 as (HE0 & HR0). rewrite <- HE0 in Hbound.
  destruct Hwf as (Hw0 & Hc0 & HEr & HRr).
  assert (Hwf : wf_machine m) by (repeat split; assumption || apply HEr || apply HRr || apply Hc0).
  pose proof (submitted_bounded env m w Hwf s Hs) as Hsub.
  pose proof (delivery_inv_reachable env m w Hwf s Hs) as Hdel.
  pose proof (execs_exact_reachable env m w Hwf s Hs) as Hex.
  destruct (counters_inv_reachable env m w Hwf s Hs) as (_ & _ & _ & Hres & _).
  unfold delivery_inv in Hdel. unfold execs_exact in Hex.
  assert (Hpt : tally sending (workers s) + tally unexec (workers s)
                <= tally undelivered (workers s)).
  { rewrite <- tally_add. apply tally_le. intros [| | | | |j [r|]]; simpl; lia. }
  pose proof (tally_nonneg sending (workers s)) as Hs0.
  pose proof (tally_nonneg unexec (workers s) unexec_nonneg) as Hu0.
  assert (0 <= tally sending (workers s)).
  { apply Hs0. intros []; simpl; lia. }
  unfold Uint64.in_range in HEr, HRr.
  rewrite wrap_small in Hres by (unfold Uint64.in_range; lia).
  lia.
Qed.

Lemma results_never_exceed_execs_witness :
  Results (Stats (mach (demo_state Demo.snapshot resumed_demo_run))) <=
  Execs (Stats (mach (demo_state Demo.snapshot resumed_demo_run))).
Proof.
  apply (results_never_exceed_execs Demo.env 2 "words.txt" Demo.session
           Demo.find_root Demo.collect [] (Demo.machine Demo.snapshot)).
  - reflexivity.
  - demo_side.
  - intros p Hp. injection Hp as <-. simpl. lia.
  - vm_compute. reflexivity.
  - exists resumed_demo_run. vm_compute. reflexivity.
Defined.

(** ** Lines are consumed in file order *)

(** At every moment the lines of the second read are, in this order, those
    the resume loop discarded, those handed to workers, and those still to
    come: no line is reordered, repeated or left out.  At most as many lines
    are discarded as the snapshot has executions, and once a line has been
    submitted exactly that many (or the whole file) were. *)
Theorem lines_consumed_in_file_order {Result World : Type}
    (env : Env) (c : Z) (f : string) (sess : Session)
    (rh : @RunHandler Result) (oh : @ResultHandler Result World)
    (w : World) (m : Machine) (lines : list string) :
  NewMachine env c f (Some sess) rh oh = inr m ->
  valid_session sess ->
  LineReader env 1 f 0 = inr lines ->
  forall s, reachable env m w s ->
    (exists rest, lines = discarded s ++ submitted s ++ rest) /\
    Z.of_nat (length (discarded s)) <= Z.max 0 (prior_execs sess) /\
    (submitted s <> [] ->
       discarded s = take (Z.to_nat (prior_execs sess)) lines).
Proof.
  intros Hnew Hv H1 s Hs.
  pose proof (NewMachine_wf _ _ _ _ _ _ _ Hnew Hv) as Hwf.
  destruct (NewMachine_fields _ _ _ _ _ _ _ Hnew) as (Hf & _). subst f.
  assert (HE0 : Execs (Stats m) = Z.max 0 (prior_execs sess)).
  { destruct (Z_le_gt_dec (prior_execs sess) 0) as [Hk | Hk].
    - rewrite (NewMachine_fresh _ _ _ _ _ _ _ Hnew Hk). simpl. lia.
    - unfold prior_execs in *.
      destruct (SessionStats sess) as [p|] eqn:Hp; [|lia].
      rewrite (NewMachine_resumed _ _ _ _ _ _ _ Hnew p Hp ltac:(lia)). lia. }
  assert (Hto : Z.to_nat (prior_execs sess) = Z.to_nat (Execs (Stats m))) by lia.
  rewrite Hto.
  pose proof (main_inv_reachable env m w Hwf s Hs) as Hinv.
  unfold main_inv, pumping, quiet, skipped in Hinv.
  destruct (main s); break_hyps;
    repeat match goal with
    | H : LineReader env 1 _ _ = inr ?l |- _ =>
        lazymatch l with
        | lines => fail
        | _ => rewrite H1 in H; injection H as <-
        end
    | H : LineReader env 1 _ _ = inl _ |- _ => rewrite H1 in H; discriminate H
    | H : _ \/ _ |- _ => destruct H; break_hyps
    | Hd : discarded _ = [] |- _ => rewrite Hd in *; clear Hd
    | Hsub : submitted _ = [] |- _ => rewrite Hsub in *; clear Hsub
    end;
    simpl.
  all: split; [eexists; try eassumption; reflexivity|].
  all: split; [|try (intros Hne; first [contradiction | assumption])].
  all: try lia.
  all: match goal with
       | Hd : discarded _ = take _ _ |- _ =>
           rewrite Hd, length_take; lia
       end.
Qed.

Lemma lines_consumed_in_file_order_witness :
  (exists rest,
     Demo.words =
     discarded (demo_state Demo.snapshot resumed_demo_run) ++
     submitted (demo_state Demo.snapshot resumed_demo_run) ++ rest) /\
  Z.of_nat (length (discarded (demo_state Demo.snapshot resumed_demo_run)))
    <= Z.max 0 (prior_execs Demo.session) /\
  (submitted (demo_state Demo.snapshot resumed_demo_run) <> [] ->
     discarded (demo_state Demo.snapshot resumed_demo_run) =
     take (Z.to_nat (prior_execs Demo.session)) Demo.words).
Proof.
  apply (lines_consumed_in_file_order Demo.env 2 "words.txt" Demo.session
           Demo.find_root Demo.collect [] (Demo.machine Demo.snapshot)).
  - reflexivity.
  - demo_side.
  - reflexivity.
  - exists resumed_demo_run. vm_compute. reflexivity.
Defined.

(** ** The counters at the end, when the two reads differ *)

(** [Inputs] counts the lines of the first read and [Execs] those of the
    second: whatever the two [LineReader] calls returned, when [Wait] has
    returned [Inputs] is the length of the first read, the first [k] lines of
    the second read were discarded and all the others submitted, and [Execs]
    is [k] plus their number, where [k] is the snapshot's [Execs]. *)
Theorem final_counters_from_two_reads {Result World : Type}
    (env : Env) (c : Z) (f : string) (sess : Session)
    (rh : @RunHandler Result) (oh : @ResultHandler Result World)
    (w : World) (m : Machine) (lines0 lines1 : list string) :
  NewMachine env c f (Some sess) rh oh = inr m ->
  valid_session sess ->
  LineReader env 0 f 0 = inr lines0 ->
  LineReader env 1 f 0 = inr lines1 ->
  forall s, reachable env m w s -> main s = MFinished ->
    Inputs (Stats (mach s)) = Uint64.wrap (Z.of_nat (length lines0)) /\
    discarded s = take (Z.to_nat (prior_execs sess)) lines1 /\
    submitted s = drop (Z.to_nat (prior_execs sess)) lines1 /\
    Execs (Stats (mach s)) =
      Uint64.wrap (Z.max 0 (prior_execs sess) +
                   Z.of_nat (length (drop (Z.to_nat (prior_execs sess)) lines1))).
Proof.
  intros Hnew Hv H0 H1 s Hs Hm.
  pose proof (NewMachine_wf _ _ _ _ _ _ _ Hnew Hv) as Hwf.
  destruct (NewMachine_fields _ _ _ _ _ _ _ Hnew) as (Hf & _). subst f.
  assert (HE0 : Execs (Stats m) = Z.max 0 (prior_execs sess)).
  { destruct (Z_le_gt_dec (prior_execs sess) 0) as [Hk | Hk].
    - rewrite (NewMachine_fresh _ _ _ _ _ _ _ Hnew Hk). simpl. lia.
    - unfold prior_execs in *.
      destruct (SessionStats sess) as [p|] eqn:Hp; [|lia].
      rewrite (NewMachine_resumed _ _ _ _ _ _ _ Hnew p Hp ltac:(lia)). lia. }
  assert (Hto : Z.to_nat (prior_execs sess) = Z.to_nat (Execs (Stats m))) by lia.
  destruct (finished_outcome env m w Hwf s Hs Hm)
    as (l0 & l1 & H0' & H1' & HI & Hd & Hsub & Hidle & _).
  destruct (idle_counters env m w Hwf s Hs Hidle) as (HE & _).
  rewrite H0 in H0'. rewrite H1 in H1'.
  injection H0' as <-. injection H1' as <-.
  rewrite Hto, <- HE0, <- Hsub. auto.
Qed.

Module GrowDemo.
(** The wordlist gains a line between the counting pass and the submission
    pass. *)
Definition env : Env :=
  {| NumCPU := 2;
     LineReader := fun call _ _ =>
       match call with
       | O => inr Demo.words
       | _ => inr (Demo.words ++ ["toor"%string])
       end;
     Now := fun n => Z.of_nat n * 1000000000 |}.

Definition whole_run : list Thread :=
  replicate 12 TMain ++ job_schedule false ++ job_schedule true ++
  job_schedule false ++ job_schedule false ++ [TMain; TMain; TMain].

Definition final : @State string (list string) :=
  default (init (Demo.machine zeroStatistics) [])
          (run env whole_run (init (Demo.machine zeroStatistics) [])).
End GrowDemo.

Lemma final_counters_from_two_reads_witness :
  Inputs (Stats (mach GrowDemo.final)) = Uint64.wrap (Z.of_nat (length Demo.words)) /\
  discarded GrowDemo.final =
    take (Z.to_nat (prior_execs Demo.no_session)) (Demo.words ++ ["toor"%string]) /\
  submitted GrowDemo.final =
    drop (Z.to_nat (prior_execs Demo.no_session)) (Demo.words ++ ["toor"%string]) /\
  Execs (Stats (mach GrowDemo.final)) =
    Uint64.wrap
      (Z.max 0 (prior_execs Demo.no_session) +
       Z.of_nat (length (drop (Z.to_nat (prior_execs Demo.no_session))
                              (Demo.words ++ ["toor"%string])))).
Proof.
  apply (final_counters_from_two_reads GrowDemo.env 2 "words.txt"
           Demo.no_session Demo.find_root Demo.collect []
           (Demo.machine zeroStatistics)).
  - reflexivity.
  - intros st Hst. discriminate Hst.
  - reflexivity.
  - reflexivity.
  - exists GrowDemo.whole_run. vm_compute. reflexivity.
  - reflexivity.
Defined.

(** ** Resuming past the end of the wordlist *)

Module OverrunDemo.
(** A snapshot with more executions than the wordlist has lines. *)
Definition snapshot : Statistics :=
  {| Start := 5; Stop := 0; Total := 0; Inputs := 9; Eps := Float64.zero;
     Execs := 7; Results := 1; Progress := Float64.zero |}.

Definition session : Session := {| SessionStats := Some snapshot |}.
End OverrunDemo.

(** When the snapshot's [Execs] exceeds the number of lines, the resume
    loop runs off the end of the file: no line is ever submitted, no worker
    ever holds a job and [Execs] keeps the snapshot's value.  [Wait] still
    returns, with every line discarded and [Inputs < Execs]; nothing reports
    the mismatch. *)
Theorem resume_past_end_submits_nothing {Result World : Type}
    (env : Env) (c : Z) (f : string) (sess : Session) (p : Statistics)
    (rh : @RunHandler Result) (oh : @ResultHandler Result World)
    (w : World) (m : Machine) (lines : list string) :
  NewMachine env c f (Some sess) rh oh = inr m ->
  valid_platform env c ->
  SessionStats sess = Some p ->
  valid_stats p ->
  Z.of_nat (length lines) < Execs p ->
  LineReader env 0 f 0 = inr lines ->
  LineReader env 1 f 0 = inr lines ->
  (forall s, reachable env m w s ->
     submitted s = [] /\ handled s = [] /\ idle (workers s) /\
     Execs (Stats (mach s)) = Execs p /\
     (main s = MFinished ->
        discarded s = lines /\
        Inputs (Stats (mach s)) = Z.of_nat (length lines) /\
        Inputs (Stats (mach s)) < Execs (Stats (mach s)))) /\
  (exists s, reachable env m w s /\ main s = MFinished).
Proof.
  intros Hnew Hplat Hp Hv Hk H0 H1.
  assert (Hwf : wf_machine m).
  { apply (NewMachine_wf _ _ _ _ _ _ _ Hnew). intros st Hst.
    rewrite Hp in Hst. injection Hst as <-. exact Hv. }
  destruct (NewMachine_fields _ _ _ _ _ _ _ Hnew) as (Hf & _).
  pose proof (NewMachine_resumed _ _ _ _ _ _ _ Hnew p Hp ltac:(lia)) as Hst.
  destruct Hv as (_ & HEr & _). unfold Uint64.in_range in HEr.
  subst f. split.
  - intros s Hs.
    assert (Hsub : submitted s = []).
    { pose proof (main_inv_reachable env m w Hwf s Hs) as Hinv.
      unfold main_inv, pumping, quiet, skipped in Hinv. rewrite Hst in Hinv.
      destruct (main s); break_hyps; try assumption;
        match goal with
        | Hl : LineReader env 1 _ _ = inr ?l, Hd : discarded _ = take _ ?l,
          Hx : ?l = discarded _ ++ submitted _ ++ _ |- _ =>
            rewrite H1 in Hl; injection Hl as <-;
            rewrite take_ge in Hd by lia; rewrite Hd in Hx;
            rewrite <- (app_nil_r lines) in Hx at 1;
            apply app_inv_head in Hx; symmetry in Hx;
            apply app_eq_nil in Hx; destruct Hx as [Hx _]; exact Hx
        end. }
    pose proof (delivery_inv_reachable env m w Hwf s Hs) as Hdel.
    destruct (jobs_inv_reachable env m w Hwf s Hs) as (Hws & _).
    unfold delivery_inv in Hdel. rewrite Hsub in Hdel. simpl in Hdel.
    assert (Hun : 0 <= tally undelivered (workers s)).
    { apply tally_nonneg. intros [| | | | |j [r|]]; simpl; lia. }
    assert (Hdeq : dequeued s = []).
    { destruct (dequeued s); [reflexivity | simpl in Hdel; lia]. }
    assert (Hidle : idle (workers s)).
    { unfold idle. rewrite Forall_forall. intros v Hin.
      rewrite Forall_forall in Hws. pose proof (Hws v Hin) as Hok.
      apply list_elem_of_lookup in Hin. destruct Hin as (i & Hi).
      assert (Hv0 : undelivered v <= 0).
      { pose proof (tally_lookup_le undelivered (workers s) i v) as Hle.
        specialize (Hle ltac:(intros [| | | | |j [r|]]; simpl; lia) Hi). lia. }
      destruct v as [| | | | |j [r|]]; simpl in Hv0; try lia; [reflexivity|].
      simpl in Hok. destruct Hok as (_ & Hin). rewrite Hdeq in Hin.
      inversion Hin. }
    destruct (idle_counters env m w Hwf s Hs Hidle) as (HE & _).
    rewrite Hsub, Hst in HE. simpl in HE.
    rewrite Z.add_0_r, wrap_small in HE by exact HEr.
    assert (Hh : handled s = []).
    { unfold dequeued in Hdeq. apply app_eq_nil in Hdeq. tauto. }
    do 4 (split; [assumption|]).
    intros Hm.
    destruct (finished_outcome env m w Hwf s Hs Hm)
      as (l0 & l1 & H0' & H1' & HI & Hd & _).
    rewrite H0 in H0'. rewrite H1 in H1'.
    injection H0' as <-. injection H1' as <-.
    rewrite Hst, take_ge in Hd by lia.
    rewrite wrap_small in HI by (unfold Uint64.in_range; lia).
    split; [exact Hd|]. split; [exact HI | lia].
  - destruct (run_completes env m w Hwf lines lines H0 H1) as (s & Hs & Hm & _).
    + exact (NewMachine_consumers_pos _ _ _ _ _ _ _ Hnew Hplat).
    + exists s. auto.
Qed.

Lemma resume_past_end_submits_nothing_witness :
  (forall s, reachable Demo.env (Demo.machine OverrunDemo.snapshot) [] s ->
     submitted s = [] /\ handled s = [] /\ idle (workers s) /\
     Execs (Stats (mach s)) = Execs OverrunDemo.snapshot /\
     (main s = MFinished ->
        discarded s = Demo.words /\
        Inputs (Stats (mach s)) = Z.of_nat (length Demo.words) /\
        Inputs (Stats (mach s)) < Execs (Stats (mach s)))) /\
  (exists s, reachable Demo.env (Demo.machine OverrunDemo.snapshot) [] s /\
             main s = MFinished).
Proof.
  apply (resume_past_end_submits_nothing Demo.env 2 "words.txt"
           OverrunDemo.session OverrunDemo.snapshot
           Demo.find_root Demo.collect).
  all: demo_side.
Defined.

(** ** After [Wait] has returned *)

(** The schedule of the demo wordlist under which [Wait] returns while the
    handler call for "root" is still pending. *)
Definition wait_returns_early : list Thread :=
  root_handed_over ++ [TWorker 0] ++ job_schedule false ++
  [TMain; TMain; TMain].

(** Once [Wait] has returned, the machine is final: the only statement that
    can still execute is the one handler call the collector may have
    pending, and it changes neither the statistics nor anything else of the
    machine. *)
Theorem statistics_frozen_after_wait {Result World : Type}
    (env : Env) (c : Z) (f : string) (sess : Session)
    (rh : @RunHandler Result) (oh : @ResultHandler Result World)
    (w : World) (m : Machine) :
  NewMachine env c f (Some sess) rh oh = inr m ->
  valid_session sess ->
  forall s, reachable env m w s -> main s = MFinished ->
    forall sched s', run env sched s = Some s' ->
      mach s' = mach s /\ main s' = MFinished /\
      workers s' = workers s /\ submitted s' = submitted s /\
      (sched = [] \/ sched = [TCollector]).
Proof.
  intros Hnew Hv s Hs Hm sched s' Hrun.
  pose proof (NewMachine_wf _ _ _ _ _ _ _ Hnew Hv) as Hwf.
  destruct (finished_outcome env m w Hwf s Hs Hm)
    as (_ & _ & _ & _ & _ & _ & _ & Hidle & _).
  assert (Hstuck : forall (x : @State Result World) t x',
            main x = MFinished -> idle (workers x) ->
            step env t x = Some x' ->
            t = TCollector /\ mach x' = mach x /\ main x' = MFinished /\
            workers x' = workers x /\ submitted x' = submitted x /\
            collector x' = Some CRecv).
  { intros x t x' Hmx Hix Hstep. destruct t as [|i|]; simpl in Hstep.
    - unfold step_main in Hstep. rewrite Hmx in Hstep. discriminate.
    - unfold step_worker in Hstep.
      destruct (workers x !! i) as [v|] eqn:Hi; [|discriminate].
      rewrite (idle_lookup _ _ _ Hix Hi), Hmx in Hstep. discriminate.
    - unfold step_collector in Hstep.
      destruct (collector x) as [[|j r]|]; try discriminate.
      injection Hstep as <-. simpl. repeat split; auto. }
  destruct sched as [|t sched]; simpl in Hrun.
  - injection Hrun as <-. repeat split; auto.
  - destruct (step env t s) as [s1|] eqn:H1; [|discriminate].
    destruct (Hstuck s t s1 Hm Hidle H1) as (-> & Hmach & Hm1 & Hws & Hsub & Hcol).
    destruct sched as [|t' sched]; simpl in Hrun.
    + injection Hrun as <-. repeat split; auto.
    + destruct (step env t' s1) as [s2|] eqn:H2; [|discriminate].
      rewrite <- Hws in Hidle.
      destruct (Hstuck s1 t' s2 Hm1 Hidle H2) as (-> & _).
      simpl in H2. unfold step_collector in H2. rewrite Hcol in H2.
      discriminate.
Qed.

Lemma statistics_frozen_after_wait_witness :
  mach (demo_state zeroStatistics (wait_returns_early ++ [TCollector])) =
    mach (demo_state zeroStatistics wait_returns_early) /\
  main (demo_state zeroStatistics (wait_returns_early ++ [TCollector])) =
    MFinished /\
  workers (demo_state zeroStatistics (wait_returns_early ++ [TCollector])) =
    workers (demo_state zeroStatistics wait_returns_early) /\
  submitted (demo_state zeroStatistics (wait_returns_early ++ [TCollector])) =
    submitted (demo_state zeroStatistics wait_returns_early) /\
  ([TCollector] = [] \/ [TCollector] = [TCollector]).
Proof.
  apply (statistics_frozen_after_wait Demo.env 2 "words.txt" Demo.no_session
           Demo.find_root Demo.collect [] (Demo.machine zeroStatistics)
           eq_refl ltac:(intros st Hst; discriminate Hst)
           (demo_state zeroStatistics wait_returns_early)
           ltac:(exists wait_returns_early; vm_compute; reflexivity)
           eq_refl [TCollector]
           (demo_state zeroStatistics (wait_returns_early ++ [TCollector]))).
  vm_compute. reflexivity.
Defined.

(** ** The run never deadlocks and always ends *)

(** With the worker pool [NewMachine] builds, no reachable state is a
    deadlock: some goroutine can execute its next statement, unless [Wait]
    has returned and the collector is idle, or [Start] has returned an
    error. *)
Theorem no_deadlock {Result World : Type}
    (env : Env) (c : Z) (f : string) (sess : Session)
    (rh : @RunHandler Result) (oh : @ResultHandler Result World)
    (w : World) (m : Machine) :
  NewMachine env c f (Some sess) rh oh = inr m ->
  valid_session sess ->
  valid_platform env c ->
  forall s, reachable env m w s ->
    can_move env s \/ complete s \/ failed s.
Proof.
  intros Hnew Hv Hplat s Hs.
  pose proof (NewMachine_wf _ _ _ _ _ _ _ Hnew Hv) as Hwf.
  apply (run_never_deadlocks env m w Hwf s); [|exact Hs].
  exact (NewMachine_consumers_pos _ _ _ _ _ _ _ Hnew Hplat).
Qed.

Lemma no_deadlock_witness :
  can_move Demo.env (demo_state zeroStatistics root_handed_over) \/
  complete (demo_state zeroStatistics root_handed_over) \/
  failed (demo_state zeroStatistics root_handed_over).
Proof.
  apply (no_deadlock Demo.env 2 "words.txt" Demo.no_session
           Demo.find_root Demo.collect [] (Demo.machine zeroStatistics)).
  - reflexivity.
  - intros st Hst. discriminate Hst.
  - demo_side.
  - exists root_handed_over. vm_compute. reflexivity.
Defined.

(** Every run is finite: whatever the scheduler does, no more statements
    execute than eleven plus the number of workers, the lines of the counting
    pass and nine times the lines of the submission pass.  As no reachable
    state is a deadlock, every run that is carried on as long as a goroutine
    can move ends with [Wait] returned and the collector idle, or with
    [Start] failed. *)
Theorem every_run_is_finite {Result World : Type}
    (env : Env) (c : Z) (f : string) (sess : Session)
    (rh : @RunHandler Result) (oh : @ResultHandler Result World)
    (w : World) (m : Machine) :
  NewMachine env c f (Some sess) rh oh = inr m ->
  valid_session sess ->
  forall sched s, run env sched (init m w) = Some s ->
    Z.of_nat (length sched) <=
      11 + consumers m + line_count (LineReader env 0 f 0)
         + 9 * line_count (LineReader env 1 f 0).
Proof.
  intros Hnew Hv sched s Hrun.
  pose proof (NewMachine_wf _ _ _ _ _ _ _ Hnew Hv) as Hwf.
  destruct (NewMachine_fields _ _ _ _ _ _ _ Hnew) as (Hf & _). subst f.
  pose proof (run_length_bounded env m w Hwf sched (init m w) s
                (reachable_init env m w) Hrun) as Hlen.
  pose proof (fuel_nonneg env m w Hwf s ltac:(exists sched; exact Hrun)) as Hs0.
  unfold fuel in Hlen at 1. simpl in Hlen. lia.
Qed.

Lemma every_run_is_finite_witness :
  Z.of_nat (length fresh_demo_run) <=
    11 + consumers (Demo.machine zeroStatistics)
       + line_count (LineReader Demo.env 0 "words.txt" 0)
       + 9 * line_count (LineReader Demo.env 1 "words.txt" 0).
Proof.
  apply (every_run_is_finite Demo.env 2 "words.txt" Demo.no_session
           Demo.find_root Demo.collect [] (Demo.machine zeroStatistics)
           eq_refl ltac:(intros st Hst; discriminate Hst)
           fresh_demo_run (demo_state zeroStatistics fresh_demo_run)).
  vm_compute. reflexivity.
Defined.

(** ** The result handler *)

(** The result handler runs serially and once per result: in every state
    its world is the initial world to which the handler was applied for each
    handled result, in the order in which the collector received them; the
    handled results are, with their multiplicity, among the non-nil results
    of the run handler on the submitted lines, each being the result of the
    job it carries; and once every worker is idle and the collector is back
    at its receive, they are exactly these results. *)
Theorem handler_runs_once_per_result {Result World : Type}
    (env : Env) (c : Z) (f : string) (sess : Session)
    (rh : @RunHandler Result) (oh : @ResultHandler Result World)
    (w : World) (m : Machine) :
  NewMachine env c f (Some sess) rh oh = inr m ->
  valid_session sess ->
  forall s, reachable env m w s ->
    world s = fold_left (fun acc jr => oh jr.2 acc) (handled s) w /\
    map snd (handled s) ⊆+ omap rh (submitted s) /\
    Forall (fun jr => exists l, submitted s !! jr.1 = Some l /\
                                rh l = Some jr.2) (handled s) /\
    (idle (workers s) -> collector s = Some CRecv ->
       map snd (handled s) ≡ₚ omap rh (submitted s)).
Proof.
  intros Hnew Hv s Hs.
  pose proof (NewMachine_wf _ _ _ _ _ _ _ Hnew Hv) as Hwf.
  destruct (NewMachine_fields _ _ _ _ _ _ _ Hnew) as (_ & Hrh & Hoh & _).
  pose proof (world_inv_reachable env m w s Hs) as Hw.
  destruct (counters_inv_reachable env m w Hwf s Hs)
    as (_ & _ & _ & _ & Hperm & _).
  destruct (jobs_inv_reachable env m w Hwf s Hs) as (_ & Hjobs).
  unfold world_inv in Hw. unfold dequeued in Hperm, Hjobs.
  rewrite Hoh in Hw. rewrite Hrh in Hperm.
  rewrite map_app, <- app_assoc in Hperm.
  split; [exact Hw|]. split; [|split].
  - rewrite <- Hperm. apply submseteq_inserts_r. reflexivity.
  - apply Forall_app in Hjobs. destruct Hjobs as [Hjobs _].
    eapply Forall_impl; [exact Hjobs|].
    intros [j r] (l & Hl & Hr). exists l. rewrite <- Hrh. auto.
  - intros Hidle Hcol. unfold in_progress in Hperm.
    rewrite Hcol, (idle_owed _ _ Hidle) in Hperm. simpl in Hperm.
    rewrite app_nil_r in Hperm. exact Hperm.
Qed.

Lemma handler_runs_once_per_result_witness :
  world (demo_state zeroStatistics fresh_demo_run) =
    fold_left (fun acc jr => Demo.collect jr.2 acc)
              (handled (demo_state zeroStatistics fresh_demo_run)) [] /\
  map snd (handled (demo_state zeroStatistics fresh_demo_run))
    ⊆+ omap Demo.find_root
         (submitted (demo_state zeroStatistics fresh_demo_run)) /\
  Forall (fun jr => exists l,
            submitted (demo_state zeroStatistics fresh_demo_run) !! jr.1
              = Some l /\ Demo.find_root l = Some jr.2)
         (handled (demo_state zeroStatistics fresh_demo_run)) /\
  map snd (handled (demo_state zeroStatistics fresh_demo_run))
    ≡ₚ omap Demo.find_root
         (submitted (demo_state zeroStatistics fresh_demo_run)).
Proof.
  destruct (handler_runs_once_per_result Demo.env 2 "words.txt"
              Demo.no_session Demo.find_root Demo.collect []
              (Demo.machine zeroStatistics) eq_refl
              ltac:(intros st Hst; discriminate Hst)
              (demo_state zeroStatistics fresh_demo_run))
    as (HA & HB & HC & HD).
  - exists fresh_demo_run. vm_compute. reflexivity.
  - split; [exact HA|]. split; [exact HB|]. split; [exact HC|].
    apply HD; [|reflexivity].
    vm_compute. repeat constructor.
Defined.

(** ** The run handler *)

(** [m.run_handler] is called on submitted lines only and once per
    submission: in every state its calls are, with their multiplicity, among
    the submitted lines, and they are exactly the submitted lines once every
    worker is idle.  When [Wait] has returned, the handler was called exactly
    once for every line of the second read after the first [k], [k] being
    the snapshot's [Execs]: the lines the resume loop discarded are not
    processed again. *)
Theorem run_handler_called_once_per_line {Result World : Type}
    (env : Env) (c : Z) (f : string) (sess : Session)
    (rh : @RunHandler Result) (oh : @ResultHandler Result World)
    (w : World) (m : Machine) (lines1 : list string) :
  NewMachine env c f (Some sess) rh oh = inr m ->
  valid_session sess ->
  LineReader env 1 f 0 = inr lines1 ->
  forall s, reachable env m w s ->
    executed s ⊆+ submitted s /\
    (idle (workers s) -> executed s ≡ₚ submitted s) /\
    (main s = MFinished ->
       executed s ≡ₚ drop (Z.to_nat (prior_execs sess)) lines1).
Proof.
  intros Hnew Hv H1 s Hs.
  pose proof (NewMachine_wf _ _ _ _ _ _ _ Hnew Hv) as Hwf.
  destruct (NewMachine_fields _ _ _ _ _ _ _ Hnew) as (Hf & _). subst f.
  pose proof (executed_inv_reachable env m w s Hs) as Hex.
  unfold executed_inv in Hex.
  split; [|split].
  - rewrite <- Hex. apply submseteq_inserts_r. reflexivity.
  - apply (idle_executed env m w s Hs).
  - intros Hm.
    assert (HE0 : Execs (Stats m) = Z.max 0 (prior_execs sess)).
    { destruct (Z_le_gt_dec (prior_execs sess) 0) as [Hk | Hk].
      - rewrite (NewMachine_fresh _ _ _ _ _ _ _ Hnew Hk). simpl. lia.
      - unfold prior_execs in *.
        destruct (SessionStats sess) as [p|] eqn:Hp; [|lia].
        rewrite (NewMachine_resumed _ _ _ _ _ _ _ Hnew p Hp ltac:(lia)). lia. }
    assert (Hto : Z.to_nat (prior_execs sess) = Z.to_nat (Execs (Stats m)))
      by lia.
    destruct (finished_outcome env m w Hwf s Hs Hm)
      as (l0 & l1 & _ & H1' & _ & _ & Hsub & Hidle & _).
    rewrite H1 in H1'. injection H1' as <-.
    rewrite Hto, <- Hsub. apply (idle_executed env m w s Hs Hidle).
Qed.

Lemma run_handler_called_once_per_line_witness :
  executed (demo_state Demo.snapshot resumed_demo_run)
    ⊆+ submitted (demo_state Demo.snapshot resumed_demo_run) /\
  executed (demo_state Demo.snapshot resumed_demo_run)
    ≡ₚ submitted (demo_state Demo.snapshot resumed_demo_run) /\
  executed (demo_state Demo.snapshot resumed_demo_run)
    ≡ₚ drop (Z.to_nat (prior_execs Demo.session)) Demo.words.
Proof.
  destruct (run_handler_called_once_per_line Demo.env 2 "words.txt"
              Demo.session Demo.find_root Demo.collect []
              (Demo.machine Demo.snapshot) Demo.words eq_refl
              ltac:(demo_side) eq_refl
              (demo_state Demo.snapshot resumed_demo_run))
    as (HA & HB & HC).
  - exists resumed_demo_run. vm_compute. reflexivity.
  - split; [exact HA|]. split.
    + apply HB. vm_compute. repeat constructor.
    + apply HC. reflexivity.
Defined.

(** ** The derived statistics *)

Lemma div_eucl_shifted m :
  Z.div_eucl (Z.shiftl (Zpos m) 53) (Zpos m) = (2 ^ 53, 0).
Proof.
  rewrite Z.shiftl_mul_pow2 by lia.
  pose proof (Z.div_eucl_eq (Zpos m * 2 ^ 53) (Zpos m) ltac:(lia)) as Heq.
  pose proof (Z.mod_pos_bound (Zpos m * 2 ^ 53) (Zpos m) ltac:(lia)) as Hb.
  unfold Z.modulo in Hb.
  destruct (Z.div_eucl (Zpos m * 2 ^ 53) (Zpos m)) as [q r].
  assert (Hq : q = 2 ^ 53) by nia.
  subst q. f_equal. lia.
Qed.

Lemma new_location_zero n : new_location n 0 = loc_Exact.
Proof.
  unfold new_location, new_location_even, new_location_odd.
  destruct (Z.even n); reflexivity.
Qed.

(** A finite non-zero [float64] divided by itself is exactly 1.0. *)
Lemma float64_div_self s m e :
  Float64.div (S754_finite s m e) (S754_finite s m e)
  = S754_finite false 4503599627370496 (-52).
Proof.
  unfold Float64.div, SFdiv, SFdiv_core_binary.
  rewrite !Z.sub_diag.
  change (Z.min (fexp Float64.prec Float64.emax 0) 0) with (-53).
  change (0 - -53) with 53.
  cbv iota beta.
  rewrite div_eucl_shifted, new_location_zero.
  destruct s; reflexivity.
Qed.

(** After a full run of a non-empty wordlist that is the same in both
    passes (resumed or not, the snapshot's [Execs] not exceeding the line
    count), [UpdateStats] leaves [Execs = Inputs] and [Progress] exactly
    [float64(100)]. *)
Theorem progress_is_100_after_full_run {Result World : Type}
    (env : Env) (c : Z) (f : string) (sess : Session)
    (rh : @RunHandler Result) (oh : @ResultHandler Result World)
    (w : World) (m : Machine) (lines : list string) :
  NewMachine env c f (Some sess) rh oh = inr m ->
  valid_session sess ->
  prior_execs sess <= Z.of_nat (length lines) ->
  0 < Z.of_nat (length lines) < Uint64.modulus ->
  LineReader env 0 f 0 = inr lines ->
  LineReader env 1 f 0 = inr lines ->
  forall s, reachable env m w s -> main s = MFinished ->
    Execs (Stats (mach s)) = Z.of_nat (length lines) /\
    Inputs (Stats (mach s)) = Z.of_nat (length lines) /\
    Progress (Stats (mach s)) = Float64.of_Z 100.
Proof.
  intros Hnew Hv Hk Hlen H0 H1 s Hs Hm.
  pose proof (NewMachine_wf _ _ _ _ _ _ _ Hnew Hv) as Hwf.
  destruct (NewMachine_fields _ _ _ _ _ _ _ Hnew) as (Hf & _). subst f.
  assert (HE0 : Execs (Stats m) = Z.max 0 (prior_execs sess)).
  { destruct (Z_le_gt_dec (prior_execs sess) 0) as [Hk0 | Hk0].
    - rewrite (NewMachine_fresh _ _ _ _ _ _ _ Hnew Hk0). simpl. lia.
    - unfold prior_execs in *.
      destruct (SessionStats sess) as [p|] eqn:Hp; [|lia].
      rewrite (NewMachine_resumed _ _ _ _ _ _ _ Hnew p Hp ltac:(lia)). lia. }
  destruct (finished_outcome env m w Hwf s Hs Hm)
    as (l0 & l1 & H0' & H1' & HI & Hd & Hsub & Hidle & Hfin).
  destruct (idle_counters env m w Hwf s Hs Hidle) as (HE & _).
  rewrite H0 in H0'. rewrite H1 in H1'.
  injection H0' as <-. injection H1' as <-.
  assert (Hwrap : Uint64.wrap (Z.of_nat (length lines)) = Z.of_nat (length lines)).
  { apply wrap_small. unfold Uint64.in_range. lia. }
  rewrite Hwrap in HI.
  assert (HEx : Execs (Stats (mach s)) = Z.of_nat (length lines)).
  { rewrite HE, Hsub, length_drop, <- Hwrap. f_equal. lia. }
  split; [exact HEx|]. split; [exact HI|].
  destruct Hfin as (_ & _ & _ & _ & HP). rewrite HP, HEx, HI.
  destruct (of_Z_pos_finite (Z.of_nat (length lines)) Hlen) as (mx & ex & ->).
  rewrite float64_div_self. reflexivity.
Qed.

Lemma progress_is_100_after_full_run_witness :
  Execs (Stats (mach (demo_state Demo.snapshot resumed_demo_run))) =
    Z.of_nat (length Demo.words) /\
  Inputs (Stats (mach (demo_state Demo.snapshot resumed_demo_run))) =
    Z.of_nat (length Demo.words) /\
  Progress (Stats (mach (demo_state Demo.snapshot resumed_demo_run))) =
    Float64.of_Z 100.
Proof.
  apply (progress_is_100_after_full_run Demo.env 2 "words.txt" Demo.session
           Demo.find_root Demo.collect [] (Demo.machine Demo.snapshot)
           Demo.words).
  - reflexivity.
  - demo_side.
  - demo_side.
  - demo_side.
  - reflexivity.
  - reflexivity.
  - exists resumed_demo_run. vm_compute. reflexivity.
  - reflexivity.
Defined.

(** [UpdateStats] divides by the duration without a guard: when the clock
    reads at [Stop] what it read at [Start], [Total] is 0 and [Eps] is NaN
    when nothing was executed and +Inf otherwise. *)
Theorem eps_with_zero_duration {Result World : Type}
    (now : GoTime.Time) (m : @Machine Result World) :
  Start (Stats m) = now ->
  Uint64.in_range (Execs (Stats m)) ->
  Total (Stats (UpdateStats now m)) = 0 /\
  Eps (Stats (UpdateStats now m)) =
    (if Execs (Stats m) =? 0 then Float64.NaN else Float64.pos_inf).
Proof.
  intros Hstart HE. unfold UpdateStats. simpl. rewrite Hstart.
  assert (Hsub : GoTime.Sub now now = 0).
  { unfold GoTime.Sub. rewrite Z.sub_diag. reflexivity. }
  rewrite Hsub. split; [reflexivity|].
  change (GoTime.Seconds 0) with (S754_zero false).
  destruct (Execs (Stats m) =? 0) eqn:Hz.
  - apply Z.eqb_eq in Hz. rewrite Hz. reflexivity.
  - apply Z.eqb_neq in Hz. unfold Uint64.in_range in HE.
    destruct (of_Z_pos_finite (Execs (Stats m)) ltac:(lia)) as (mx & ex & ->).
    reflexivity.
Qed.

Lemma eps_with_zero_duration_witness :
  Total (Stats (UpdateStats 5 (Demo.machine Demo.snapshot))) = 0 /\
  Eps (Stats (UpdateStats 5 (Demo.machine Demo.snapshot))) = Float64.pos_inf.
Proof.
  apply (eps_with_zero_duration 5 (Demo.machine Demo.snapshot)).
  - reflexivity.
  - unfold Uint64.in_range, Uint64.modulus. simpl. lia.
Defined.
